(** * Rollup fee computation: l2geth [rollup/fees] and [OVM_GasPriceOracle]

    A shallow embedding of [l2geth/rollup/fees/rollup_fee.go] and of the
    view functions of [OVM_GasPriceOracle.sol], with the properties the
    specification states about them.

    Conventions.
    - [*big.Int] values are [Z]; [uint64] values are [Z] with the
      wrap-around of every operation written out ([wrap64]); [uint256]
      values are [Z] reduced by [wrap256].
    - [[]byte] is [list byte].
    - A Go function returning [(T, error)] returns [result T]; a Go call
      that may panic returns an [outcome]; a contract call that may revert
      returns an [option].
    - A [big.Float] and a [float64] are exact dyadic values (or a signed
      zero or infinity), and the rounding of every operation is written out.
    - [PaysEnough] is given twice: on values, and on pointers into a store
      of objects ([Mem]), with a proof that the two agree. *)

From Stdlib Require Import ZArith List Lia Bool.
From Stdlib Require Import Strings.Byte Strings.String Strings.Ascii.
From stdpp Require Import gmap.

Local Open Scope Z_scope.

(* ===================================================================== *)
(** * Machine integers *)
(* ===================================================================== *)

(** Go's [uint64]: every arithmetic result is reduced modulo 2^64. *)
Definition wrap64 (z : Z) : Z := z mod 2 ^ 64.

(** Solidity's [uint256] before 0.8: unchecked arithmetic wraps modulo 2^256. *)
Definition wrap256 (z : Z) : Z := z mod 2 ^ 256.

Definition byte_to_Z (b : byte) : Z := Z.of_N (Byte.to_N b).

Definition byte_of_Z (z : Z) : byte :=
  match Byte.of_N (Z.to_N (z mod 256)) with
  | Some b => b
  | None => x00
  end.

(* ===================================================================== *)
(** * Errors *)
(* ===================================================================== *)

(** The package-level error values of [rollup_fee.go], [fmt.Errorf] with
    the [%w] verb, and the errors of the collaborators (oracle, encoder),
    which the package passes through unchanged. *)
Inductive error : Type :=
| ErrFeeTooLow
| ErrFeeTooHigh
| errMissingInput
| Errorf_w (msg : string) (wrapped : error)
| Upstream (msg : string).

(** [errors.Is err target]: [err] or an error it wraps is [target].  The
    targets of this package are the three package-level values. *)
Fixpoint sentinel_eqb (a b : error) : bool :=
  match a, b with
  | ErrFeeTooLow, ErrFeeTooLow => true
  | ErrFeeTooHigh, ErrFeeTooHigh => true
  | errMissingInput, errMissingInput => true
  | Errorf_w m1 e1, Errorf_w m2 e2 => String.eqb m1 m2 && sentinel_eqb e1 e2
  | Upstream m1, Upstream m2 => String.eqb m1 m2
  | _, _ => false
  end.

Fixpoint errors_Is (err target : error) : bool :=
  sentinel_eqb err target ||
  match err with
  | Errorf_w _ inner => errors_Is inner target
  | _ => false
  end.

Inductive result (A : Type) : Type :=
| Ok (a : A)
| Err (e : error).
Arguments Ok {A} a.
Arguments Err {A} e.

(* ===================================================================== *)
(** * Byte cost model and L1 fee calculator (Go) *)
(* ===================================================================== *)

(** Modelled from the spec: [params.TxDataZeroGas] is declared in
    [l2geth/params], which is not among the sources; the spec (4.1) fixes
    it to 4 cost units per zero byte. *)
Definition TxDataZeroGas : Z := 4.

(** Modelled from the spec: [params.TxDataNonZeroGasEIP2028] is declared in
    [l2geth/params], which is not among the sources; the spec (4.1) fixes
    it to 16 cost units per non-zero byte. *)
Definition TxDataNonZeroGasEIP2028 : Z := 16.

(** The body of the [for _, byt := range data] loop of [zeroesAndOnes],
    with the two [uint64] counters as accumulators. *)
Fixpoint zeroesAndOnes_loop (data : list byte) (zeroes ones : Z) : Z * Z :=
  match data with
  | [] => (zeroes, ones)
  | byt :: rest =>
      if Byte.eqb byt x00
      then zeroesAndOnes_loop rest (wrap64 (zeroes + 1)) ones
      else zeroesAndOnes_loop rest zeroes (wrap64 (ones + 1))
  end.

Definition zeroesAndOnes (data : list byte) : Z * Z :=
  zeroesAndOnes_loop data 0 0.

Definition CalculateL1GasUsed (data : list byte) (overhead : Z) : Z :=
  let '(zeroes, ones) := zeroesAndOnes data in
  let zeroesCost := wrap64 (zeroes * TxDataZeroGas) in
  let onesCost := wrap64 (ones * TxDataNonZeroGasEIP2028) in
  let l1Cost := wrap64 (zeroesCost + onesCost) in
  l1Cost + overhead.

Definition CalculateL1Fee (data : list byte) (overhead l1GasPrice scalar : Z) :
    Z :=
  let cost := CalculateL1GasUsed data overhead in
  let l1Fee := cost * l1GasPrice in
  l1Fee * scalar.

(** The quantities the specification names: the number of zero bytes and
    of non-zero bytes of a byte sequence, as unbounded integers. *)
Fixpoint zeroCount (data : list byte) : Z :=
  match data with
  | [] => 0
  | b :: rest => (if Byte.eqb b x00 then 1 else 0) + zeroCount rest
  end.

Fixpoint nonZeroCount (data : list byte) : Z :=
  match data with
  | [] => 0
  | b :: rest => (if Byte.eqb b x00 then 0 else 1) + nonZeroCount rest
  end.

(* ===================================================================== *)
(** * The on-chain mirror: [OVM_GasPriceOracle] *)
(* ===================================================================== *)

Module OVM_GasPriceOracle.

(** The four [uint256] storage variables of the contract. *)
Record storage : Type := {
  gasPrice : Z;
  l1BaseFee : Z;
  overhead : Z;
  scalar : Z
}.

Definition is_uint256 (z : Z) : Prop := 0 <= z < 2 ^ 256.

Definition wf (s : storage) : Prop :=
  is_uint256 (gasPrice s) /\ is_uint256 (l1BaseFee s) /\
  is_uint256 (overhead s) /\ is_uint256 (scalar s).

(** OpenZeppelin's [SafeMath] (imported by the contract): [add] and
    [mul] compute in [uint256] and revert ([None]) when the [require]
    that detects the overflow fails. *)
Definition SafeMath_add (a b : Z) : option Z :=
  let c := wrap256 (a + b) in
  if a <=? c then Some c else None.

Definition SafeMath_mul (a b : Z) : option Z :=
  if a =? 0 then Some 0
  else
    let c := wrap256 (a * b) in
    if c / a =? b then Some c else None.

(** The loop of [getL1GasUsed]: [total += 4] or [total += 16], unchecked. *)
Fixpoint getL1GasUsed_loop (_data : list byte) (total : Z) : Z :=
  match _data with
  | [] => total
  | b :: rest =>
      if Byte.eqb b x00
      then getL1GasUsed_loop rest (wrap256 (total + 4))
      else getL1GasUsed_loop rest (wrap256 (total + 16))
  end.

Definition getL1GasUsed (s : storage) (_data : list byte) : option Z :=
  let total := getL1GasUsed_loop _data 0 in
  SafeMath_add total (overhead s).

Definition getL1Fee (s : storage) (_data : list byte) : option Z :=
  match getL1GasUsed s _data with
  | None => None
  | Some l1Cost =>
      match SafeMath_mul l1Cost (l1BaseFee s) with
      | None => None
      | Some l1Fee => SafeMath_mul l1Fee (scalar s)
      end
  end.

End OVM_GasPriceOracle.

(* ===================================================================== *)
(** * Transactions, messages and the collaborators' interfaces *)
(* ===================================================================== *)

(** [common.Address] and [common.Hash] are fixed-size byte arrays. *)
Definition Address : Type := list byte.
Definition Hash : Type := list byte.

(** [Hash.Big]: the word read as an unsigned big-endian integer. *)
Definition Hash_Big (h : Hash) : Z :=
  fold_left (fun acc b => acc * 256 + byte_to_Z b) h 0.

(** The fields of [types.Transaction] that take part in the encoding and in
    the fee: the payload of the transaction and its signature values. *)
Module types.
Record Transaction : Type := {
  AccountNonce : Z;
  Price : Z;
  GasLimit : Z;
  Recipient : option Address;
  Amount : Z;
  Payload : list byte;
  V : Z;
  R : Z;
  S : Z
}.

(** [tx.Gas()] and [tx.GasPrice()]. *)
Definition Gas (tx : Transaction) : Z := GasLimit tx.
Definition GasPrice (tx : Transaction) : Z := Price tx.
End types.
Abbreviation Transaction := types.Transaction.

(** The [Message] interface, one field per method. *)
Record Message : Type := {
  From : Address;
  To : option Address;
  GasPrice : Z;
  Gas : Z;
  Value : Z;
  Nonce : Z;
  Data : list byte
}.

(** The [StateDb] interface. *)
Record StateDb : Type := {
  GetState : Address -> Hash -> Hash
}.

(** The [RollupOracle] interface; every query may fail on its own. *)
Record RollupOracle : Type := {
  SuggestL1GasPrice : result Z;
  SuggestL2GasPrice : result Z;
  SuggestOverhead : result Z;
  SuggestScalar : result Z
}.

(** Modelled from the spec: [types.NewTransaction] is defined in
    [l2geth/core/types], which is not among the sources; the spec (4.5)
    says the message path reconstructs a transaction from the message's
    recipient, value, gas limit, gas price, nonce and data, with no
    signature yet. *)
Definition NewTransaction (nonce : Z) (to : Address)
    (amount gasLimit gasPrice : Z)
    (data : list byte) : Transaction :=
  {| types.AccountNonce := nonce; types.Price := gasPrice;
     types.GasLimit := gasLimit; types.Recipient := Some to;
     types.Amount := amount; types.Payload := data;
     types.V := 0; types.R := 0; types.S := 0 |}.

(** Modelled from the spec: [types.NewContractCreation] is defined in
    [l2geth/core/types], which is not among the sources; as
    [NewTransaction], for an absent recipient (spec 3: absent = contract
    creation). *)
Definition NewContractCreation (nonce amount gasLimit gasPrice : Z)
    (data : list byte) : Transaction :=
  {| types.AccountNonce := nonce; types.Price := gasPrice;
     types.GasLimit := gasLimit; types.Recipient := None;
     types.Amount := amount; types.Payload := data;
     types.V := 0; types.R := 0; types.S := 0 |}.

(** [bytes.Repeat b count]: [count] copies of [b], concatenated. *)
Fixpoint bytes_Repeat (b : list byte) (count : nat) : list byte :=
  match count with
  | O => []
  | S n => b ++ bytes_Repeat b n
  end.

(* ===================================================================== *)
(** * Standard transaction serialization (RLP) *)
(* ===================================================================== *)

(** Modelled from the spec: [Transaction.EncodeRLP] is defined in
    [l2geth/core/types] and [l2geth/rlp], which are not among the sources;
    the spec (4.2, 6) says it is the standard chain transaction
    serialization, which is the RLP list of the nine fields nonce, gas
    price, gas limit, recipient, value, payload, V, R, S.  The functions
    of [Section Fees] below take the encoder as a parameter; this model
    instantiates it. *)
Module RLP.

(** The [n] low-order bytes of [w], most significant first. *)
Fixpoint be_split (n : nat) (w : Z) : list byte :=
  match n with
  | O => []
  | S n' => be_split n' (w / 256) ++ [byte_of_Z (w mod 256)]
  end.

(** Number of bytes of the shortest big-endian form; 0 for 0. *)
Definition byte_len (w : Z) : Z :=
  if w <=? 0 then 0 else Z.log2 w / 8 + 1.

Definition be_bytes (w : Z) : list byte :=
  be_split (Z.to_nat (byte_len w)) w.

(** Header of an item of payload length [len]: [short] is 0x80 for a
    string and 0xc0 for a list. *)
Definition header (short : Z) (len : Z) : list byte :=
  if len <=? 55 then [byte_of_Z (short + len)]
  else byte_of_Z (short + 55 + byte_len len) :: be_bytes len.

Definition encode_bytes (b : list byte) : list byte :=
  match b with
  | [x] => if byte_to_Z x <? 128 then [x] else header 128 1 ++ b
  | _ => header 128 (Z.of_nat (length b)) ++ b
  end.

Definition encode_uint (w : Z) : list byte := encode_bytes (be_bytes w).

Definition encode_list (items : list (list byte)) : list byte :=
  let payload := concat items in
  header 192 (Z.of_nat (length payload)) ++ payload.

(** A negative [*big.Int] cannot be encoded. *)
Definition encode_bigint (w : Z) : result (list byte) :=
  if w <? 0 then Err (Upstream "rlp: cannot encode negative *big.Int")
  else Ok (encode_uint w).

Definition encode_recipient (to : option Address) : list byte :=
  match to with
  | None => encode_bytes []
  | Some a => encode_bytes a
  end.

(** Modelled from the spec: [Transaction.EncodeRLP] of [l2geth/core/types]
    (not among the sources), the standard serialization of spec 6: the list
    of the nine fields in their declared order. *)
Definition EncodeRLP (tx : Transaction) : result (list byte) :=
  match encode_bigint (types.Price tx), encode_bigint (types.Amount tx),
        encode_bigint (types.V tx), encode_bigint (types.R tx),
        encode_bigint (types.S tx) with
  | Ok price, Ok amount, Ok v, Ok r, Ok s =>
      Ok (encode_list
            [ encode_uint (wrap64 (types.AccountNonce tx)); price;
              encode_uint (wrap64 (types.GasLimit tx));
              encode_recipient (types.Recipient tx); amount;
              encode_bytes (types.Payload tx); v; r; s ])
  | Err e, _, _, _, _ => Err e
  | _, Err e, _, _, _ => Err e
  | _, _, Err e, _, _ => Err e
  | _, _, _, Err e, _ => Err e
  | _, _, _, _, Err e => Err e
  end.

End RLP.

(* ===================================================================== *)
(** * Transaction encoder and fee aggregator (Go) *)
(* ===================================================================== *)

Section Fees.

(** [tx.EncodeRLP], from [l2geth/core/types]. *)
Variable EncodeRLP : Transaction -> result (list byte).

(** The constants of [l2geth/rollup/rcfg]: the predeploy address and the
    three storage slots. *)
Variable L2GasPriceOracleAddress : Address.
Variables L1GasPriceSlot OverheadSlot ScalarSlot : Hash.

Definition rawTransaction (tx : Transaction) (pad : bool) : result (list byte)
    :=
  match EncodeRLP tx with
  | Err err => Err err
  | Ok raw =>
      if pad
      then Ok (raw ++ bytes_Repeat (list_byte_of_string "ff") 68)
      else Ok raw
  end.

Definition asTransaction (msg : Message) : Transaction :=
  match To msg with
  | None =>
      NewContractCreation (Nonce msg) (Value msg) (Gas msg) (GasPrice msg)
      (Data msg)
  | Some to =>
      NewTransaction (Nonce msg) to (Value msg) (Gas msg) (GasPrice msg)
      (Data msg)
  end.

Definition ReadGPOStorageSlots (state : StateDb) : Z * Z * Z :=
  let l1GasPrice := GetState state L2GasPriceOracleAddress L1GasPriceSlot in
  let overhead := GetState state L2GasPriceOracleAddress OverheadSlot in
  let scalar := GetState state L2GasPriceOracleAddress ScalarSlot in
  (Hash_Big l1GasPrice, Hash_Big overhead, Hash_Big scalar).

Definition CalculateFee (tx : Transaction) (gpo : RollupOracle) : result Z :=
  match SuggestL1GasPrice gpo with
  | Err err => Err err
  | Ok l1GasPrice =>
  match SuggestOverhead gpo with
  | Err err => Err err
  | Ok overhead =>
  match SuggestScalar gpo with
  | Err err => Err err
  | Ok scalar =>
  match rawTransaction tx false with
  | Err err => Err err
  | Ok raw =>
      let l1Fee := CalculateL1Fee raw overhead l1GasPrice scalar in
      let l2GasLimit := wrap64 (types.Gas tx) in
      let l2Fee := types.GasPrice tx * l2GasLimit in
      let fee := l1Fee + l2Fee in
      Ok fee
  end end end end.

Definition CalculateL1MsgFee (msg : Message) (state : StateDb) : result Z :=
  let tx := asTransaction msg in
  match rawTransaction tx true with
  | Err err => Err err
  | Ok raw =>
      let '(l1GasPrice, overhead, scalar) := ReadGPOStorageSlots state in
      let l1Fee := CalculateL1Fee raw overhead l1GasPrice scalar in
      Ok l1Fee
  end.

Definition CalculateMsgFee (msg : Message) (state : StateDb) (gasUsed : Z) :
    result Z :=
  match CalculateL1MsgFee msg state with
  | Err err => Err err
  | Ok l1Fee =>
      let l2Fee := GasPrice msg * gasUsed in
      let fee := l1Fee + l2Fee in
      Ok fee
  end.

End Fees.

(* ===================================================================== *)
(** * Floating-point values: [math/big.Float], [float64], [math.Ceil] *)
(* ===================================================================== *)

(** A Go call either returns or panics. *)
Inductive outcome (A : Type) : Type :=
| Returns (a : A)
| Panics (msg : string).
Arguments Returns {A} a.
Arguments Panics {A} msg.

Module big.

(** The value of a [big.Float]: a signed zero, a signed infinity, or a
    finite non-zero number [(-1)^neg * mant * 2^exp].  The constructors
    are the three values of the [form] field. *)
Inductive Float : Type :=
| zero (neg : bool)
| finite (neg : bool) (mant : positive) (exp : Z)
| inf (neg : bool).

Definition of_mant (neg : bool) (m e : Z) : Float :=
  match m with
  | Zpos p => finite neg p e
  | _ => zero neg
  end.

(** [m / 2^k] rounded to the nearest integer, ties to even ([0 < k]). *)
Definition shr_nearest_even (m k : Z) : Z :=
  let q := Z.shiftr m k in
  let r := Z.land m (Z.ones k) in
  let half := Z.shiftl 1 (k - 1) in
  if r <? half then q
  else if half <? r then q + 1
  else if Z.even q then q else q + 1.

(** [Float.round] in the default mode [ToNearestEven]: [m * 2^e] with the
    mantissa cut to its [prec] most significant bits. *)
Definition round (prec : Z) (m e : Z) : Z * Z :=
  let k := Z.log2 m + 1 - prec in
  if k <=? 0 then (m, e) else (shr_nearest_even m k, e + k).

(** [z.SetUint64(x)] on a fresh [z]: precision 64, so [x] is exact. *)
Definition SetUint64 (x : Z) : Float := of_mant false x 0.

(** [z.Mul(x, y)] for a receiver of precision [prec]: the exact product
    rounded to [prec] bits; zero times infinity panics with [ErrNaN].  The
    32-bit exponent range of [big.Float] is left out: a product beyond it is
    an infinity or a zero in Go, and [Float64] below gives that same value
    for the unbounded product. *)
Definition Mul (prec : Z) (x y : Float) : outcome Float :=
  match x, y with
  | finite nx mx ex, finite ny my ey =>
      let '(m, e) := round prec (Zpos (mx * my)) (ex + ey) in
      Returns (of_mant (xorb nx ny) m e)
  | zero _, inf _ | inf _, zero _ =>
      Panics "multiplication of zero with infinity"
  | inf nx, finite ny _ _ | inf nx, inf ny | finite nx _ _, inf ny =>
      Returns (inf (xorb nx ny))
  | zero nx, finite ny _ _ | zero nx, zero ny | finite nx _ _, zero ny =>
      Returns (zero (xorb nx ny))
  end.

(** The constants of [Float.Float64]. *)
Definition mbits : Z := 52.
Definition bias : Z := 1023.
Definition dmin : Z := 1 - bias - mbits.
Definition emin : Z := 1 - bias.
Definition emax : Z := bias.

Definition is_pow2 (m : positive) : bool := Zpos m =? 2 ^ Z.log2 (Zpos m).

(** [x.Float64()]: the nearest [float64], ties to even; denormal below
    [2^emin], signed zero on underflow, signed infinity on overflow. *)
Definition Float64 (x : Float) : Float :=
  match x with
  | finite neg m ex =>
      let e := Z.log2 (Zpos m) + ex in
      let p := if e <? emin then mbits + 1 - emin + e else mbits + 1 in
      if (p <? 0) || ((p =? 0) && is_pow2 m) then zero neg
      else if p =? 0 then finite neg 1 dmin
      else
        let '(m', e') := round p (Zpos m) ex in
        if emax <? Z.log2 m' + e' then inf neg else of_mant neg m' e'
  | zero neg => zero neg
  | inf neg => inf neg
  end.

(** [x.Uint64()] of a [big.Int]: the low 64 bits of the absolute value. *)
Definition Uint64 (x : Z) : Z := wrap64 (Z.abs x).

(** [x.Cmp(y)] of two [big.Int]. *)
Definition Cmp (x y : Z) : Z :=
  match x ?= y with
  | Lt => -1
  | Eq => 0
  | Gt => 1
  end.

End big.

(** The values [product.Float64()] can return: no NaN arises. *)
Definition float64 : Type := big.Float.

Module math.

(** [math.Ceil]: the least integer value not below [x]; zeros and
    infinities are returned as they are, and a value in (-1, 0) gives -0. *)
Definition Ceil (x : float64) : float64 :=
  match x with
  | big.finite neg m e =>
      let v := if neg then Zneg m else Zpos m in
      let c := if 0 <=? e then v * 2 ^ e else - ((- v) / 2 ^ (- e)) in
      match c with
      | Z0 => big.zero neg
      | Zpos p => big.finite false p 0
      | Zneg p => big.finite true p 0
      end
  | _ => x
  end.

End math.

(* ===================================================================== *)
(** * Fee validator (Go), on values *)
(* ===================================================================== *)

Record PaysEnoughOpts : Type := {
  UserFee : option Z;
  ExpectedFee : option Z;
  ThresholdUp : option big.Float;
  ThresholdDown : option big.Float
}.

Section Validator.

(** Go leaves the conversion [uint64(f)] implementation-dependent when
    [f] is outside the range of [uint64]; the value an implementation
    picks is a parameter. *)
Variable uint64_out_of_range : float64 -> Z.

(** The conversion [uint64(f)]: the fraction is discarded. *)
Definition uint64_of_float64 (f : float64) : Z :=
  match f with
  | big.zero _ => 0
  | big.finite neg m e =>
      let t := if 0 <=? e then Zpos m * 2 ^ e else Zpos m / 2 ^ (- e) in
      if neg
      then if t =? 0 then 0 else wrap64 (uint64_out_of_range f)
      else if t <? 2 ^ 64 then t else wrap64 (uint64_out_of_range f)
  | big.inf _ => wrap64 (uint64_out_of_range f)
  end.

Definition mulByFloat (num : Z) (float : big.Float) : outcome Z :=
  let n := big.SetUint64 (big.Uint64 num) in
  match big.Mul 64 n float with
  | Panics msg => Panics msg
  | Returns product =>
      let pfloat := big.Float64 product in
      let rounded := math.Ceil pfloat in
      Returns (uint64_of_float64 rounded)
  end.

(** [PaysEnough] on the values its argument leads to.  The argument is a
    pointer in the source; here it is taken to be non-nil, and the pointers,
    the nil argument among them, are in [Mem] below. *)
Definition PaysEnough (opts : PaysEnoughOpts) : outcome (option error) :=
  match UserFee opts with
  | None => Returns (Some (Errorf_w "%w: no user fee" errMissingInput))
  | Some userFee =>
  match ExpectedFee opts with
  | None => Returns (Some (Errorf_w "%w: no expected fee" errMissingInput))
  | Some expectedFee =>
      let fee := expectedFee in
      match
        match ThresholdDown opts with
        | Some thresholdDown => mulByFloat fee thresholdDown
        | None => Returns fee
        end
      with
      | Panics msg => Panics msg
      | Returns fee =>
          if big.Cmp userFee fee =? -1 then Returns (Some ErrFeeTooLow)
          else
            match ThresholdUp opts with
            | Some thresholdUp =>
                let overpaying := userFee - expectedFee in
                match mulByFloat expectedFee thresholdUp with
                | Panics msg => Panics msg
                | Returns threshold =>
                    if big.Cmp overpaying threshold =? 1
                    then Returns (Some ErrFeeTooHigh)
                    else Returns None
                end
            | None => Returns None
            end
      end
  end end.

End Validator.

(* ===================================================================== *)
(** * Fee validator (Go), on pointers *)
(* ===================================================================== *)

(** [PaysEnough] receives a pointer to a struct of four pointers, and the
    methods of [big.Int] and [big.Float] write to their receiver.  This
    layer keeps the objects in a store and passes the store along. *)
Module Mem.

Definition loc : Type := positive.

(** The request on values of the previous section, under a name the
    struct below does not hide. *)
Abbreviation request := PaysEnoughOpts.
Abbreviation Build_request := Build_PaysEnoughOpts.

(** The struct [PaysEnoughOpts]; [None] is the nil pointer. *)
Record PaysEnoughOpts : Type := {
  UserFee : option loc;
  ExpectedFee : option loc;
  ThresholdUp : option loc;
  ThresholdDown : option loc
}.

(** A [big.Int] holds its value, a [big.Float] its precision (0 until it
    is first set) and its value. *)
Inductive object : Type :=
| Int (v : Z)
| Float (prec : Z) (v : big.Float)
| Opts (o : PaysEnoughOpts).

Abbreviation heap := (gmap loc object).

Definition M (A : Type) : Type := heap -> outcome A * heap.

Definition ret {A} (a : A) : M A := fun h => (Returns a, h).

Definition bind {A B} (m : M A) (k : A -> M B) : M B :=
  fun h =>
    match m h with
    | (Returns a, h') => k a h'
    | (Panics msg, h') => (Panics msg, h')
    end.

Definition panic {A} (msg : string) : M A := fun h => (Panics msg, h).

Notation "x <- m ;; k" := (bind m (fun x => k))
  (at level 100, m at next level, right associativity).
Notation "m ;;; k" := (bind m (fun _ => k))
  (at level 100, right associativity).

Definition nil_dereference : string :=
  "invalid memory address or nil pointer dereference".

(** [new(T)]: a fresh object holding the zero value of [T]. *)
Definition new (o : object) : M loc :=
  fun h => let l := fresh (dom h) in (Returns l, <[l := o]> h).

Definition load_Int (x : loc) : M Z :=
  fun h =>
    match h !! x with
    | Some (Int v) => (Returns v, h)
    | _ => (Panics nil_dereference, h)
    end.

Definition load_Float (x : loc) : M (Z * big.Float) :=
  fun h =>
    match h !! x with
    | Some (Float prec v) => (Returns (prec, v), h)
    | _ => (Panics nil_dereference, h)
    end.

Definition load_Opts (x : loc) : M PaysEnoughOpts :=
  fun h =>
    match h !! x with
    | Some (Opts o) => (Returns o, h)
    | _ => (Panics nil_dereference, h)
    end.

Definition store (z : loc) (o : object) : M unit :=
  fun h => (Returns tt, <[z := o]> h).

(** Methods of [big.Int]; each writes its result to the receiver [z]. *)
Definition Int_Set (z x : loc) : M loc :=
  v <- load_Int x ;; _ <- load_Int z ;; store z (Int v) ;;; ret z.

Definition Int_SetUint64 (z : loc) (x : Z) : M loc :=
  _ <- load_Int z ;; store z (Int x) ;;; ret z.

Definition Int_Sub (z x y : loc) : M loc :=
  a <- load_Int x ;; b <- load_Int y ;; _ <- load_Int z ;;
  store z (Int (a - b)) ;;; ret z.

Definition Int_Cmp (x y : loc) : M Z :=
  a <- load_Int x ;; b <- load_Int y ;; ret (big.Cmp a b).

Definition Int_Uint64 (x : loc) : M Z :=
  a <- load_Int x ;; ret (big.Uint64 a).

(** Methods of [big.Float]. *)
Definition Float_SetUint64 (z : loc) (x : Z) : M loc :=
  pv <- load_Float z ;;
  let prec := if fst pv =? 0 then 64 else fst pv in
  let '(m, e) := big.round prec x 0 in
  store z (Float prec (big.of_mant false m e)) ;;; ret z.

Definition Float_Mul (z x y : loc) : M loc :=
  pz <- load_Float z ;; px <- load_Float x ;; py <- load_Float y ;;
  let prec := if fst pz =? 0 then Z.max (fst px) (fst py) else fst pz in
  match big.Mul prec (snd px) (snd py) with
  | Returns v => store z (Float prec v) ;;; ret z
  | Panics msg => store z (Float prec (big.zero false)) ;;; panic msg
  end.

Definition Float_Float64 (x : loc) : M float64 :=
  px <- load_Float x ;; ret (big.Float64 (snd px)).

Section Validator.

Variable uint64_out_of_range : float64 -> Z.

Definition mulByFloat (num float : loc) : M loc :=
  u <- Int_Uint64 num ;;
  z <- new (Float 0 (big.zero false)) ;;
  n <- Float_SetUint64 z u ;;
  product <- Float_Mul n n float ;;
  pfloat <- Float_Float64 product ;;
  let rounded := math.Ceil pfloat in
  z <- new (Int 0) ;;
  Int_SetUint64 z (uint64_of_float64 uint64_out_of_range rounded).

Definition PaysEnough (opts : loc) : M (option error) :=
  o <- load_Opts opts ;;
  match UserFee o with
  | None => ret (Some (Errorf_w "%w: no user fee" errMissingInput))
  | Some userFee =>
  match ExpectedFee o with
  | None => ret (Some (Errorf_w "%w: no expected fee" errMissingInput))
  | Some expectedFee =>
      z <- new (Int 0) ;;
      fee <- Int_Set z expectedFee ;;
      fee <- match ThresholdDown o with
             | Some thresholdDown => mulByFloat fee thresholdDown
             | None => ret fee
             end ;;
      c <- Int_Cmp userFee fee ;;
      if c =? -1 then ret (Some ErrFeeTooLow)
      else
        match ThresholdUp o with
        | Some thresholdUp =>
            z <- new (Int 0) ;;
            overpaying <- Int_Sub z userFee expectedFee ;;
            threshold <- mulByFloat expectedFee thresholdUp ;;
            c <- Int_Cmp overpaying threshold ;;
            if c =? 1 then ret (Some ErrFeeTooHigh) else ret None
        | None => ret None
        end
  end end.

End Validator.

(** The request a store holds at [opts], with every pointer followed. *)
Definition value_of_Int (h : heap) (p : option loc) : option (option Z) :=
  match p with
  | None => Some None
  | Some l => match h !! l with Some (Int v) => Some (Some v) | _ => None end
  end.

Definition value_of_Float (h : heap) (p : option loc) : option
    (option big.Float) :=
  match p with
  | None => Some None
  | Some l =>
      match h !! l with Some (Float _ v) => Some (Some v) | _ => None end
  end.

Definition request_at (h : heap) (opts : loc) : option request :=
  match h !! opts with
  | Some (Opts o) =>
      match value_of_Int h (UserFee o), value_of_Int h (ExpectedFee o),
            value_of_Float h (ThresholdUp o),
          value_of_Float h (ThresholdDown o) with
      | Some u, Some e, Some up, Some down =>
          Some (Build_request u e up down)
      | _, _, _, _ => None
      end
  | _ => None
  end.

End Mem.

(* ===================================================================== *)
(** * The contract's constructor and setters *)
(* ===================================================================== *)

Module OracleCalls.

(** The state of a deployed contract: the owner that [Ownable] keeps and the
    four variables. *)
Record state : Type := {
  owner : Z;
  vars : OVM_GasPriceOracle.storage
}.

(** The notifications the setters emit. *)
Inductive event : Type :=
| GasPriceUpdated (_gasPrice : Z)
| L1BaseFeeUpdated (_baseFee : Z)
| OverheadUpdated (_overhead : Z)
| ScalarUpdated (_scalar : Z).

(** OpenZeppelin's [onlyOwner] modifier (inherited from [Ownable]): the body
    runs when the sender is the owner, and the call reverts otherwise. *)
Definition onlyOwner {A : Type} (sender : Z) (s : state) (body : option A) :
    option A :=
  if owner s =? sender then body else None.

(** The constructor: the variables take their declared initial values, and
    [transferOwnership] (of [Ownable]) hands the contract to [_owner], which
    must not be the zero address. *)
Definition constructor (_owner : Z) : option state :=
  if _owner =? 0 then None
  else
    Some {| owner := _owner;
            vars := {| OVM_GasPriceOracle.gasPrice := 0;
                       OVM_GasPriceOracle.l1BaseFee := 0;
                       OVM_GasPriceOracle.overhead := 2750;
                       OVM_GasPriceOracle.scalar := 1 |} |}.

Definition setGasPrice (sender _gasPrice : Z) (s : state) :
    option (state * list event) :=
  onlyOwner sender s
    (Some ({| owner := owner s;
              vars := {| OVM_GasPriceOracle.gasPrice := _gasPrice;
                         OVM_GasPriceOracle.l1BaseFee :=
                           OVM_GasPriceOracle.l1BaseFee (vars s);
                         OVM_GasPriceOracle.overhead :=
                           OVM_GasPriceOracle.overhead (vars s);
                         OVM_GasPriceOracle.scalar :=
                           OVM_GasPriceOracle.scalar (vars s) |} |},
           [GasPriceUpdated _gasPrice])).

Definition setL1BaseFee (sender _baseFee : Z) (s : state) :
    option (state * list event) :=
  onlyOwner sender s
    (Some ({| owner := owner s;
              vars := {| OVM_GasPriceOracle.gasPrice :=
                           OVM_GasPriceOracle.gasPrice (vars s);
                         OVM_GasPriceOracle.l1BaseFee := _baseFee;
                         OVM_GasPriceOracle.overhead :=
                           OVM_GasPriceOracle.overhead (vars s);
                         OVM_GasPriceOracle.scalar :=
                           OVM_GasPriceOracle.scalar (vars s) |} |},
           [L1BaseFeeUpdated _baseFee])).

Definition setOverhead (sender _overhead : Z) (s : state) :
    option (state * list event) :=
  onlyOwner sender s
    (Some ({| owner := owner s;
              vars := {| OVM_GasPriceOracle.gasPrice :=
                           OVM_GasPriceOracle.gasPrice (vars s);
                         OVM_GasPriceOracle.l1BaseFee :=
                           OVM_GasPriceOracle.l1BaseFee (vars s);
                         OVM_GasPriceOracle.overhead := _overhead;
                         OVM_GasPriceOracle.scalar :=
                           OVM_GasPriceOracle.scalar (vars s) |} |},
           [OverheadUpdated _overhead])).

Definition setScalar (sender _scalar : Z) (s : state) :
    option (state * list event) :=
  onlyOwner sender s
    (Some ({| owner := owner s;
              vars := {| OVM_GasPriceOracle.gasPrice :=
                           OVM_GasPriceOracle.gasPrice (vars s);
                         OVM_GasPriceOracle.l1BaseFee :=
                           OVM_GasPriceOracle.l1BaseFee (vars s);
                         OVM_GasPriceOracle.overhead :=
                           OVM_GasPriceOracle.overhead (vars s);
                         OVM_GasPriceOracle.scalar := _scalar |} |},
           [ScalarUpdated _scalar])).

(** A call of one of the four setters, with its argument. *)
Inductive call : Type :=
| SetGasPrice (_gasPrice : Z)
| SetL1BaseFee (_baseFee : Z)
| SetOverhead (_overhead : Z)
| SetScalar (_scalar : Z).

Definition argument (c : call) : Z :=
  match c with
  | SetGasPrice v | SetL1BaseFee v | SetOverhead v | SetScalar v => v
  end.

Definition dispatch (sender : Z) (c : call) (s : state) :
    option (state * list event) :=
  match c with
  | SetGasPrice v => setGasPrice sender v s
  | SetL1BaseFee v => setL1BaseFee sender v s
  | SetOverhead v => setOverhead sender v s
  | SetScalar v => setScalar sender v s
  end.

(** A transaction is a sender and a call.  One that reverts leaves the state
    as it was and logs nothing. *)
Definition transact (sl : state * list event) (tx : Z * call) :
    state * list event :=
  match dispatch (fst tx) (snd tx) (fst sl) with
  | Some (s', events) => (s', snd sl ++ events)
  | None => sl
  end.

Definition run (txs : list (Z * call)) (s : state) : state * list event :=
  fold_left transact txs (s, []).

(** The value the last notification of a kind carries, or [initial] when the
    log has none of that kind. *)
Definition last_update (kind : event -> option Z) (log : list event)
    (initial : Z) : Z :=
  fold_left (fun v e => match kind e with Some v' => v' | None => v end)
    log initial.

Definition is_GasPriceUpdated (e : event) : option Z :=
  match e with GasPriceUpdated v => Some v | _ => None end.
Definition is_L1BaseFeeUpdated (e : event) : option Z :=
  match e with L1BaseFeeUpdated v => Some v | _ => None end.
Definition is_OverheadUpdated (e : event) : option Z :=
  match e with OverheadUpdated v => Some v | _ => None end.
Definition is_ScalarUpdated (e : event) : option Z :=
  match e with ScalarUpdated v => Some v | _ => None end.

End OracleCalls.

(* ===================================================================== *)
(** * The test table of [TestPaysEnough] *)
(* ===================================================================== *)

(** [errors.Is] on values that may be nil: a nil target matches a nil error
    only. *)
Definition errors_Is_nil (err target : option error) : bool :=
  match target, err with
  | None, None => true
  | None, Some _ => false
  | Some _, None => false
  | Some t, Some e => errors_Is e t
  end.

(** [new(big.Float).SetFloat64(x)] for the four values the table uses: 0.5,
    1.5 and 3 are dyadic, and the [float64] nearest to 0.8 is
    3602879701896397 / 2^52. *)
Definition SetFloat64_0_5 : big.Float := big.finite false 1 (-1).
Definition SetFloat64_1_5 : big.Float := big.finite false 3 (-1).
Definition SetFloat64_3 : big.Float := big.finite false 3 0.
Definition SetFloat64_0_8 : big.Float :=
  big.finite false 3602879701896397 (-52).

(** The map [tests]: a name, the options and the expected error. *)
Definition tests : list (string * (PaysEnoughOpts * option error)) :=
  [ ("missing-gas-price"%string,
     ({| UserFee := None; ExpectedFee := Some 0;
         ThresholdUp := None; ThresholdDown := None |},
      Some errMissingInput));
    ("missing-fee"%string,
     ({| UserFee := None; ExpectedFee := None;
         ThresholdUp := None; ThresholdDown := None |},
      Some errMissingInput));
    ("equal-fee"%string,
     ({| UserFee := Some 1; ExpectedFee := Some 1;
         ThresholdUp := None; ThresholdDown := None |},
      None));
    ("fee-too-low"%string,
     ({| UserFee := Some 1; ExpectedFee := Some 2;
         ThresholdUp := None; ThresholdDown := None |},
      Some ErrFeeTooLow));
    ("fee-threshold-down"%string,
     ({| UserFee := Some 1; ExpectedFee := Some 2;
         ThresholdUp := None; ThresholdDown := Some SetFloat64_0_5 |},
      None));
    ("fee-threshold-up"%string,
     ({| UserFee := Some 256; ExpectedFee := Some 1;
         ThresholdUp := Some SetFloat64_1_5; ThresholdDown := None |},
      Some ErrFeeTooHigh));
    ("fee-too-low-high"%string,
     ({| UserFee := Some 10000; ExpectedFee := Some 1;
         ThresholdUp := Some SetFloat64_3;
         ThresholdDown := Some SetFloat64_0_8 |},
      Some ErrFeeTooHigh));
    ("fee-too-low-down"%string,
     ({| UserFee := Some 1; ExpectedFee := Some 10000;
         ThresholdUp := Some SetFloat64_3;
         ThresholdDown := Some SetFloat64_0_8 |},
      Some ErrFeeTooLow));
    ("fee-too-low-down-2"%string,
     ({| UserFee := Some 0; ExpectedFee := Some 10000;
         ThresholdUp := Some SetFloat64_3;
         ThresholdDown := Some SetFloat64_0_8 |},
      Some ErrFeeTooLow)) ].

(** The body of the loop over [tests]: the case passes when the call returns
    and [errors.Is(err, tt.err)] holds. *)
Definition test_passes (uint64_out_of_range : float64 -> Z)
    (tt : PaysEnoughOpts * option error) : bool :=
  match PaysEnough uint64_out_of_range (fst tt) with
  | Returns err => errors_Is_nil err (snd tt)
  | Panics _ => false
  end.

Definition TestPaysEnough (uint64_out_of_range : float64 -> Z) : bool :=
  forallb (fun named => test_passes uint64_out_of_range (snd named)) tests.

(* ===================================================================== *)
(** * Concrete inputs *)
(* ===================================================================== *)

(** A byte sequence of 2^60 non-zero bytes. *)
Definition exbibyte_of_ones : list byte := repeat x01 (Z.to_nat (2 ^ 60)).

(** A contract state a Go snapshot can mirror: the default overhead and
    scalar, and an L1 base fee of 30 gwei. *)
Definition oracle_default : OVM_GasPriceOracle.storage :=
  {| OVM_GasPriceOracle.gasPrice := 15000000;
     OVM_GasPriceOracle.l1BaseFee := 30000000000;
     OVM_GasPriceOracle.overhead := 2750;
     OVM_GasPriceOracle.scalar := 1 |}.

(** A contract state whose fee does not fit in [uint256]. *)
Definition oracle_overflowing : OVM_GasPriceOracle.storage :=
  {| OVM_GasPriceOracle.gasPrice := 0;
     OVM_GasPriceOracle.l1BaseFee := 2 ^ 255;
     OVM_GasPriceOracle.overhead := 1;
     OVM_GasPriceOracle.scalar := 2 |}.

(** The predeploy address and the storage slots of the base fee, the
    overhead and the scalar (slots 2, 3 and 4 of the contract above, whose
    slot 0 holds the owner). *)
Definition word (z : Z) : Hash := RLP.be_split 32 z.
Definition predeploy_address : Address := [x42] ++ repeat x00 18 ++ [x0f].
Definition slot_l1GasPrice : Hash := word 2.
Definition slot_overhead : Hash := word 3.
Definition slot_scalar : Hash := word 4.

(** A state whose three slots hold the values of [oracle_default], and an
    oracle that suggests the same values. *)
Definition state_default : StateDb :=
  {| GetState := fun _ slot =>
       word (match Hash_Big slot with
             | 2 => 30000000000
             | 3 => 2750
             | 4 => 1
             | _ => 0
             end) |}.

Definition gpo_default : RollupOracle :=
  {| SuggestL1GasPrice := Ok 30000000000;
     SuggestL2GasPrice := Ok 15000000;
     SuggestOverhead := Ok 2750;
     SuggestScalar := Ok 1 |}.

(** A signed transfer (the worked example of EIP-155) and the message with
    the same content. *)
Definition recipient_35 : Address := repeat x35 20.

Definition tx_signed : Transaction :=
  {| types.AccountNonce := 9; types.Price := 20000000000;
     types.GasLimit := 21000; types.Recipient := Some recipient_35;
     types.Amount := 1000000000000000000; types.Payload := [];
     types.V := 37;
     types.R :=
       0x28ef61340bd939bc2195fe537567866003e1a15d3c71ff63e1590620aa636276;
     types.S :=
       0x67cbe9d8997f761aecb703304b3800ccf555c9f3dc64214b297fb1966a3b6d83 |}.

Definition msg_transfer : Message :=
  {| From := repeat x9d 20; To := Some recipient_35;
     GasPrice := 20000000000; Gas := 21000;
     Value := 1000000000000000000; Nonce := 9; Data := [] |}.

(** A transaction and a message carry the same content when they agree on
    every field of the message; the signature is the transaction's alone. *)
Definition same_content (tx : Transaction) (msg : Message) : Prop :=
  types.AccountNonce tx = Nonce msg /\
  types.Price tx = GasPrice msg /\
  types.GasLimit tx = Gas msg /\
  types.Recipient tx = To msg /\
  types.Amount tx = Value msg /\
  types.Payload tx = Data msg.

(** The filler [rawTransaction] appends in padded mode. *)
Definition signature_filler : list byte :=
  bytes_Repeat (list_byte_of_string "ff") 68.

(** The floor [PaysEnough] compares the user fee with: the expected fee, or
    its product with the downward threshold when there is one. *)
Definition fee_floor (uint64_out_of_range : float64 -> Z) (expectedFee : Z)
    (thresholdDown : option big.Float) : outcome Z :=
  match thresholdDown with
  | Some t => mulByFloat uint64_out_of_range expectedFee t
  | None => Returns expectedFee
  end.

(** The exact ceiling of [a * 2^e], over the integers. *)
Definition ceil_scaled (a e : Z) : Z :=
  if 0 <=? e then a * 2 ^ e else - ((- a) / 2 ^ (- e)).

(** Thresholds of the test table: 0.5, 1.5 and 3 are dyadic, and the
    [float64] nearest to 0.8 is 3602879701896397 / 2^52. *)
Definition threshold_0_5 : big.Float := big.finite false 1 (-1).
Definition threshold_1_5 : big.Float := big.finite false 3 (-1).
Definition threshold_3 : big.Float := big.finite false 3 0.
Definition threshold_0_8 : big.Float := big.finite false 3602879701896397 (-52).
Definition threshold_1 : big.Float := big.finite false 1 0.



(** One implementation's choice for the out-of-range conversion. *)
Definition out_of_range_zero : float64 -> Z := fun _ => 0.

Definition request (userFee expectedFee : option Z)
    (thresholdDown thresholdUp : option big.Float) : PaysEnoughOpts :=
  {| UserFee := userFee; ExpectedFee := expectedFee;
     ThresholdUp := thresholdUp; ThresholdDown := thresholdDown |}.

(** A computation frames the store [h0] when, started in any store that
    extends [h0], it ends in a store that still extends [h0] (no object of
    [h0] has changed), and the value it returns satisfies [Q]. *)
Definition frames {A : Type} (h0 : Mem.heap) (Q : A -> Prop) (m : Mem.M A) :
    Prop :=
  forall h, h0 ⊆ h ->
    h0 ⊆ snd (m h) /\ forall a, fst (m h) = Returns a -> Q a.

(** [wp m Q h]: running [m] in the store [h] ends in an outcome and a store
    that satisfy [Q]. *)
Definition wp {A : Type} (m : Mem.M A) (Q : outcome A -> Mem.heap -> Prop)
    (h : Mem.heap) : Prop :=
  Q (fst (m h)) (snd (m h)).

(** A location that [h0] does not hold. *)
Definition fresh_for (h0 : Mem.heap) (l : Mem.loc) : Prop := h0 !! l = None.

(** A store with a request at location 1: user fee 1 at 2, expected fee 2
    at 3, downward threshold 0.5 (of precision 53) at 4, no upward
    threshold. *)
Definition store_example : Mem.heap :=
  <[1%positive := Mem.Opts {| Mem.UserFee := Some 2%positive;
                              Mem.ExpectedFee := Some 3%positive;
                              Mem.ThresholdUp := None;
                              Mem.ThresholdDown := Some 4%positive |}]>
  (<[2%positive := Mem.Int 1]>
  (<[3%positive := Mem.Int 2]>
  (<[4%positive := Mem.Float 53 threshold_0_5]> ∅))).

(** An oracle whose overhead query fails, and one whose L1 gas price query
    fails as well. *)
Definition gpo_no_overhead : RollupOracle :=
  {| SuggestL1GasPrice := Ok 30000000000;
     SuggestL2GasPrice := Ok 15000000;
     SuggestOverhead := Err (Upstream "overhead unavailable");
     SuggestScalar := Err (Upstream "scalar unavailable") |}.

(** The message of [msg_transfer] from another sender, and a message whose
    gas price is negative, which the serialization refuses. *)
Definition msg_other_sender : Message :=
  {| From := repeat x11 20; To := Some recipient_35;
     GasPrice := 20000000000; Gas := 21000;
     Value := 1000000000000000000; Nonce := 9; Data := [] |}.

Definition msg_negative_price : Message :=
  {| From := repeat x9d 20; To := None;
     GasPrice := -1; Gas := 21000; Value := 0; Nonce := 0; Data := [x00] |}.

(** The infinite values of a [big.Float], and the message of the [ErrNaN]
    that [Mul] panics with. *)
Definition is_infinite (t : big.Float) : bool :=
  match t with
  | big.inf _ => true
  | _ => false
  end.

Definition threshold_is_infinite (t : option big.Float) : bool :=
  match t with
  | Some t => is_infinite t
  | None => false
  end.

Definition zero_times_infinity : string :=
  "multiplication of zero with infinity".

(** A store in which the user fee and the expected fee are one object (as
    in the "equal-fee" case of the test table, which passes [common.Big1]
    twice), with an upward threshold 1.5 at location 3; and a store that
    holds the same request in separate objects at other locations. *)
Definition store_aliased : Mem.heap :=
  <[1%positive := Mem.Opts {| Mem.UserFee := Some 2%positive;
                              Mem.ExpectedFee := Some 2%positive;
                              Mem.ThresholdUp := Some 3%positive;
                              Mem.ThresholdDown := None |}]>
  (<[2%positive := Mem.Int 1]>
  (<[3%positive := Mem.Float 53 threshold_1_5]> ∅)).

Definition store_separate : Mem.heap :=
  <[7%positive := Mem.Opts {| Mem.UserFee := Some 4%positive;
                              Mem.ExpectedFee := Some 9%positive;
                              Mem.ThresholdUp := Some 5%positive;
                              Mem.ThresholdDown := None |}]>
  (<[4%positive := Mem.Int 1]>
  (<[9%positive := Mem.Int 1]>
  (<[5%positive := Mem.Float 24 threshold_1_5]> ∅))).

(** Two accounts, and a trace of setter calls from both. *)
Definition account_owner : Z := 0x4200000000000000000000000000000000000001.
Definition account_other : Z := 0x9d8A62f656a8d1615C1294fd71e9CFb3E4855A4F.

Definition trace_mixed : list (Z * OracleCalls.call) :=
  [ (account_other, OracleCalls.SetScalar 1000);
    (account_owner, OracleCalls.SetL1BaseFee 30000000000);
    (account_other, OracleCalls.SetOverhead 0);
    (account_owner, OracleCalls.SetOverhead 2100);
    (account_owner, OracleCalls.SetL1BaseFee 45000000000) ].

Definition trace_of_others : list (Z * OracleCalls.call) :=
  [ (account_other, OracleCalls.SetScalar 1000);
    (account_other, OracleCalls.SetGasPrice 1) ].

Definition oracle_deployed : OracleCalls.state :=
  {| OracleCalls.owner := account_owner; OracleCalls.vars := oracle_default |}.

(** The variable a call writes. *)
Definition same_variable (c1 c2 : OracleCalls.call) : bool :=
  match c1, c2 with
  | OracleCalls.SetGasPrice _, OracleCalls.SetGasPrice _
  | OracleCalls.SetL1BaseFee _, OracleCalls.SetL1BaseFee _
  | OracleCalls.SetOverhead _, OracleCalls.SetOverhead _
  | OracleCalls.SetScalar _, OracleCalls.SetScalar _ => true
  | _, _ => false
  end.

(** The thresholds between 0 and 1: a zero, or a positive finite value
    [mant * 2^exp] with [mant <= 2^(-exp)]. *)
Definition in_unit_interval (t : big.Float) : bool :=
  match t with
  | big.zero _ => true
  | big.finite false m ex => (ex <=? 0) && (Zpos m <=? 2 ^ (- ex))
  | _ => false
  end.


(** Modelled from the spec: the floor and the cap in the spec's words,
    [ceil(fee * threshold)], the least integer not below the exact product
    of the fee and the threshold [(-1)^neg * mant * 2^exp].  An infinite
    threshold has none. *)
Definition ceil_of_product (fee : Z) (t : big.Float) : option Z :=
  match t with
  | big.zero _ => Some 0
  | big.finite neg m ex =>
      Some (ceil_scaled (fee * (if neg then Zneg m else Zpos m)) ex)
  | big.inf _ => None
  end.

(** The products a [float64] holds exactly: a fee that is not negative times
    a zero, or times a positive [mant * 2^exp] with [exp] from -1074 to 0 and
    [fee * mant] below 2^53. *)
Definition fits_float64 (fee : Z) (t : big.Float) : bool :=
  match t with
  | big.zero _ => true
  | big.finite false m ex =>
      (0 <=? fee) && (fee * Zpos m <? 2 ^ 53) && (-1074 <=? ex) && (ex <=? 0)
  | _ => false
  end.

(** A fee of about 0.0048 ether and a threshold of about 0.784 whose product
    is rounded twice, to 64 bits and then to 53, ending below the product
    rounded once. *)
Definition fee_rounded_twice : Z := 4775296438810014.
Definition threshold_rounded_twice : big.Float :=
  big.finite false 7062777577053896 (-53).

(* ===================================================================== *)
(** * Properties *)
(* ===================================================================== *)

(** ** Machine integers *)

Lemma wrap64_small (z : Z) : 0 <= z < 2 ^ 64 -> wrap64 z = z.
Proof. intros Hz. unfold wrap64. now apply Z.mod_small. Qed.

Lemma wrap64_range (z : Z) : 0 <= wrap64 z < 2 ^ 64.
Proof. unfold wrap64. apply Z.mod_pos_bound. lia. Qed.

Lemma wrap64_add_l (a b : Z) : wrap64 (wrap64 a + b) = wrap64 (a + b).
Proof. unfold wrap64. apply Zplus_mod_idemp_l. Qed.

Lemma wrap64_add_r (a b : Z) : wrap64 (a + wrap64 b) = wrap64 (a + b).
Proof. unfold wrap64. apply Zplus_mod_idemp_r. Qed.

Lemma wrap64_mul_l (a b : Z) : wrap64 (wrap64 a * b) = wrap64 (a * b).
Proof. unfold wrap64. apply Zmult_mod_idemp_l. Qed.

Lemma wrap256_small (z : Z) : 0 <= z < 2 ^ 256 -> wrap256 z = z.
Proof. intros Hz. unfold wrap256. now apply Z.mod_small. Qed.

Lemma wrap256_range (z : Z) : 0 <= wrap256 z < 2 ^ 256.
Proof. unfold wrap256. apply Z.mod_pos_bound. lia. Qed.

Lemma wrap256_add_l (a b : Z) : wrap256 (wrap256 a + b) = wrap256 (a + b).
Proof. unfold wrap256. apply Zplus_mod_idemp_l. Qed.

(** ** Byte cost model *)

Lemma zeroCount_nonneg (data : list byte) : 0 <= zeroCount data.
Proof.
  induction data as [|b rest IH]; simpl; [lia|].
  destruct (Byte.eqb b x00); lia.
Qed.

Lemma nonZeroCount_nonneg (data : list byte) : 0 <= nonZeroCount data.
Proof.
  induction data as [|b rest IH]; simpl; [lia|].
  destruct (Byte.eqb b x00); lia.
Qed.

Lemma count_length (data : list byte) :
  zeroCount data + nonZeroCount data = Z.of_nat (length data).
Proof.
  induction data as [|b rest IH]; [reflexivity|].
  cbn [zeroCount nonZeroCount length]. rewrite Nat2Z.inj_succ.
  destruct (Byte.eqb b x00); lia.
Qed.

Lemma zeroCount_app (a b : list byte) : zeroCount (a ++ b) = zeroCount a +
    zeroCount b.
Proof. induction a as [|x a IH]; simpl; [reflexivity|]. rewrite IH. lia. Qed.

Lemma nonZeroCount_app (a b : list byte) :
  nonZeroCount (a ++ b) = nonZeroCount a + nonZeroCount b.
Proof. induction a as [|x a IH]; simpl; [reflexivity|]. rewrite IH. lia. Qed.

(** The loop adds the two counts to its accumulators, modulo 2^64. *)
Lemma zeroesAndOnes_loop_spec (data : list byte) :
  forall zeroes ones,
    zeroesAndOnes_loop data (wrap64 zeroes) (wrap64 ones) =
    (wrap64 (zeroes + zeroCount data), wrap64 (ones + nonZeroCount data)).
Proof.
  induction data as [|b rest IH]; intros zeroes ones.
  - simpl. now rewrite !Z.add_0_r.
  - cbn [zeroesAndOnes_loop zeroCount nonZeroCount].
    destruct (Byte.eqb b x00).
    + rewrite wrap64_add_l, IH. f_equal; f_equal; lia.
    + rewrite wrap64_add_l, IH. f_equal; f_equal; lia.
Qed.

Lemma zeroesAndOnes_spec (data : list byte) :
  zeroesAndOnes data = (wrap64 (zeroCount data), wrap64 (nonZeroCount data)).
Proof.
  unfold zeroesAndOnes.
  change 0 with (wrap64 0) at 1 2.
  now rewrite zeroesAndOnes_loop_spec.
Qed.

(** The gas estimate is the byte cost reduced modulo 2^64, plus the overhead. *)
Lemma CalculateL1GasUsed_modular (data : list byte) (overhead : Z) :
  CalculateL1GasUsed data overhead =
  wrap64 (4 * zeroCount data + 16 * nonZeroCount data) + overhead.
Proof.
  unfold CalculateL1GasUsed. rewrite zeroesAndOnes_spec.
  unfold TxDataZeroGas, TxDataNonZeroGasEIP2028.
  rewrite !wrap64_mul_l, wrap64_add_l, wrap64_add_r.
  f_equal. f_equal. lia.
Qed.

Lemma cost_bound_of_length (data : list byte) :
  Z.of_nat (length data) < 2 ^ 60 ->
  0 <= 4 * zeroCount data + 16 * nonZeroCount data < 2 ^ 64.
Proof.
  intros Hlen. rewrite <- count_length in Hlen.
  pose proof (zeroCount_nonneg data). pose proof (nonZeroCount_nonneg data).
  lia.
Qed.

Lemma CalculateL1GasUsed_no_wrap (data : list byte) (overhead : Z) :
  4 * zeroCount data + 16 * nonZeroCount data < 2 ^ 64 ->
  CalculateL1GasUsed data overhead =
  4 * zeroCount data + 16 * nonZeroCount data + overhead.
Proof.
  intros Hcost.
  rewrite CalculateL1GasUsed_modular, wrap64_small; [reflexivity|].
  pose proof (zeroCount_nonneg data). pose proof (nonZeroCount_nonneg data).
  lia.
Qed.

Lemma zeroCount_repeat_x01 (n : nat) : zeroCount (repeat x01 n) = 0.
Proof.
  induction n as [|n IH]; [reflexivity|].
  cbn [repeat zeroCount]. rewrite IH. reflexivity.
Qed.

Lemma nonZeroCount_repeat_x01 (n : nat) : nonZeroCount (repeat x01 n) = Z.of_nat
    n.
Proof.
  induction n as [|n IH]; [reflexivity|].
  cbn [repeat nonZeroCount]. rewrite IH, Nat2Z.inj_succ.
  change (Byte.eqb x01 x00) with false. lia.
Qed.

(** C1: for every byte sequence a Go slice can hold, [CalculateL1GasUsed data
    overhead] is exactly [4*zeroCount data + 16*nonZeroCount data + overhead],
    and [CalculateL1GasUsed data 0] is
    [4*zeroCount data + 16*nonZeroCount data].  The byte cost is computed in
    [uint64], so the equality asks for a cost below 2^64; every sequence
    shorter than 2^60 bytes has one, and no slice is that long. *)
Theorem CalculateL1GasUsed_exact (data : list byte) (overhead : Z) :
  (4 * zeroCount data + 16 * nonZeroCount data < 2 ^ 64 ->
   CalculateL1GasUsed data overhead =
     4 * zeroCount data + 16 * nonZeroCount data + overhead /\
   CalculateL1GasUsed data 0 = 4 * zeroCount data + 16 * nonZeroCount data) /\
  (Z.of_nat (length data) < 2 ^ 60 ->
   4 * zeroCount data + 16 * nonZeroCount data < 2 ^ 64) /\
  (Z.of_nat (length data) < 2 ^ 60 ->
   CalculateL1GasUsed data overhead =
     4 * zeroCount data + 16 * nonZeroCount data + overhead /\
   CalculateL1GasUsed data 0 = 4 * zeroCount data + 16 * nonZeroCount data).
Proof.
  assert (4 * zeroCount data + 16 * nonZeroCount data < 2 ^ 64 ->
          CalculateL1GasUsed data overhead =
            4 * zeroCount data + 16 * nonZeroCount data + overhead /\
          CalculateL1GasUsed data 0 =
            4 * zeroCount data + 16 * nonZeroCount data) as Hexact.
  { intros Hcost. split.
    - now apply CalculateL1GasUsed_no_wrap.
    - rewrite CalculateL1GasUsed_no_wrap by assumption. lia. }
  split; [exact Hexact|].
  split; [intros Hlen; now apply cost_bound_of_length|].
  intros Hlen. apply Hexact. now apply cost_bound_of_length.
Qed.

Lemma CalculateL1GasUsed_exact_witness :
  4 * zeroCount [x00; x01; xff] + 16 * nonZeroCount [x00; x01; xff] < 2 ^ 64 /\
  Z.of_nat (length [x00; x01; xff]) < 2 ^ 60 /\
  CalculateL1GasUsed [x00; x01; xff] 7 = 43 /\
  CalculateL1GasUsed [x00; x01; xff] 0 = 36.
Proof.
  split; [reflexivity|]. split; [reflexivity|]. split.
  - apply (proj1 (proj1 (CalculateL1GasUsed_exact [x00; x01; xff] 7) eq_refl)).
  - apply (proj2 (proj2 (proj2 (CalculateL1GasUsed_exact [x00; x01; xff] 7))
                    eq_refl)).
Defined.

(** The bound of 2^60 bytes is where the [uint64] arithmetic of the byte
    cost ends: on a list of 2^60 non-zero bytes, longer than any slice,
    [ones * 16] would be 2^64, which is 0 in [uint64]. *)
Lemma CalculateL1GasUsed_wraps :
  CalculateL1GasUsed exbibyte_of_ones 0 = 0 /\
  4 * zeroCount exbibyte_of_ones + 16 * nonZeroCount exbibyte_of_ones + 0 =
    2 ^ 64 /\
  CalculateL1GasUsed exbibyte_of_ones 0 <>
    4 * zeroCount exbibyte_of_ones + 16 * nonZeroCount exbibyte_of_ones + 0.
Proof.
  unfold exbibyte_of_ones.
  rewrite CalculateL1GasUsed_modular.
  rewrite zeroCount_repeat_x01, nonZeroCount_repeat_x01.
  rewrite Z2Nat.id by (vm_compute; discriminate).
  split; [reflexivity | split; [reflexivity | vm_compute; discriminate]].
Qed.

(** ** L1 fee calculator *)

(** C2: [CalculateL1Fee] is the gas estimate times the price times the
    scalar, multiplied in that order over the integers; the scalar is a plain
    factor (a scalar of 1 leaves gas estimate times price). *)
Theorem CalculateL1Fee_product (data : list byte)
    (overhead l1GasPrice scalar : Z) :
  CalculateL1Fee data overhead l1GasPrice scalar =
    (CalculateL1GasUsed data overhead * l1GasPrice) * scalar /\
  CalculateL1Fee data overhead l1GasPrice 1 =
    CalculateL1GasUsed data overhead * l1GasPrice.
Proof.
  unfold CalculateL1Fee. split; [reflexivity|]. apply Z.mul_1_r.
Qed.

(** ** The contract's view functions against the Go calculator *)

Import OVM_GasPriceOracle.

Lemma getL1GasUsed_loop_spec (data : list byte) :
  forall total,
    getL1GasUsed_loop data (wrap256 total) =
    wrap256 (total + (4 * zeroCount data + 16 * nonZeroCount data)).
Proof.
  induction data as [|b rest IH]; intros total.
  - simpl. now rewrite Z.add_0_r.
  - cbn [getL1GasUsed_loop zeroCount nonZeroCount].
    destruct (Byte.eqb b x00); rewrite wrap256_add_l, IH; f_equal; lia.
Qed.

Lemma SafeMath_add_spec (a b : Z) :
  is_uint256 a -> is_uint256 b ->
  SafeMath_add a b = if a + b <? 2 ^ 256 then Some (a + b) else None.
Proof.
  unfold is_uint256, SafeMath_add. intros Ha Hb.
  destruct (Z.ltb_spec (a + b) (2 ^ 256)) as [Hlt|Hge].
  - rewrite wrap256_small by lia.
    destruct (Z.leb_spec a (a + b)); [reflexivity|lia].
  - replace (wrap256 (a + b)) with (a + b - 2 ^ 256).
    + destruct (Z.leb_spec a (a + b - 2 ^ 256)); [lia|reflexivity].
    + unfold wrap256. apply (Z.mod_unique_pos _ _ 1); lia.
Qed.

Lemma SafeMath_mul_spec (a b : Z) :
  is_uint256 a -> is_uint256 b ->
  SafeMath_mul a b = if a * b <? 2 ^ 256 then Some (a * b) else None.
Proof.
  unfold is_uint256, SafeMath_mul. intros Ha Hb.
  destruct (Z.eqb_spec a 0) as [->|Hnz].
  - reflexivity.
  - destruct (Z.ltb_spec (a * b) (2 ^ 256)) as [Hlt|Hge].
    + rewrite wrap256_small by nia.
      rewrite Z.mul_comm, Z.div_mul by assumption.
      now rewrite Z.eqb_refl, Z.mul_comm.
    + pose proof (wrap256_range (a * b)) as Hc.
      assert (wrap256 (a * b) / a < b) as Hq
        by (apply Z.div_lt_upper_bound; lia).
      destruct (Z.eqb_spec (wrap256 (a * b) / a) b); [lia|reflexivity].
Qed.

Lemma getL1GasUsed_spec (s : storage) (data : list byte) :
  wf s -> Z.of_nat (length data) < 2 ^ 60 ->
  getL1GasUsed s data =
  if CalculateL1GasUsed data (overhead s) <? 2 ^ 256
  then Some (CalculateL1GasUsed data (overhead s)) else None.
Proof.
  intros (_ & _ & Ho & _) Hlen.
  pose proof (cost_bound_of_length data Hlen) as Hcost.
  unfold getL1GasUsed.
  change 0 with (wrap256 0) at 1.
  rewrite getL1GasUsed_loop_spec, Z.add_0_l, wrap256_small by lia.
  rewrite SafeMath_add_spec by (unfold is_uint256 in *; lia).
  now rewrite CalculateL1GasUsed_no_wrap by lia.
Qed.

Lemma getL1Fee_spec (s : storage) (data : list byte) :
  wf s -> Z.of_nat (length data) < 2 ^ 60 ->
  let gas := CalculateL1GasUsed data (overhead s) in
  let fee := CalculateL1Fee data (overhead s) (l1BaseFee s) (scalar s) in
  getL1Fee s data =
  if (gas <? 2 ^ 256) && (gas * l1BaseFee s <? 2 ^ 256) && (fee <? 2 ^ 256)
  then Some fee else None.
Proof.
  intros Hwf Hlen gas fee. pose proof Hwf as (_ & Hb & Ho & Hs).
  pose proof (cost_bound_of_length data Hlen) as Hcost.
  assert (0 <= gas) as Hgas.
  { subst gas. rewrite CalculateL1GasUsed_no_wrap by lia.
    unfold is_uint256 in Ho. lia. }
  unfold getL1Fee. rewrite getL1GasUsed_spec by assumption. fold gas.
  destruct (Z.ltb_spec gas (2 ^ 256)) as [Hg|Hg]; [|reflexivity].
  rewrite SafeMath_mul_spec by (unfold is_uint256 in *; lia).
  destruct (Z.ltb_spec (gas * l1BaseFee s) (2 ^ 256)) as [Hp|Hp];
    [|reflexivity].
  rewrite SafeMath_mul_spec by (unfold is_uint256 in *; nia).
  reflexivity.
Qed.

(** C3 (as amended): for every contract state of [uint256] values and every
    byte sequence shorter than 2^60 bytes, whenever [getL1GasUsed] or
    [getL1Fee] returns a value, the Go calculator given the contract's
    overhead, base fee and scalar returns that same value; the contract
    reverts exactly when the gas estimate, its product with the base fee,
    or the fee does not fit in [uint256], and there the Go calculator still
    returns the unbounded value. *)
Theorem L1Fee_mirrors_contract (s : storage) (data : list byte) :
  wf s -> Z.of_nat (length data) < 2 ^ 60 ->
  let gas := CalculateL1GasUsed data (overhead s) in
  let fee := CalculateL1Fee data (overhead s) (l1BaseFee s) (scalar s) in
  (forall v, getL1GasUsed s data = Some v -> gas = v) /\
  (forall v, getL1Fee s data = Some v -> fee = v) /\
  (getL1GasUsed s data = None <-> 2 ^ 256 <= gas) /\
  (getL1Fee s data = None <->
   2 ^ 256 <= gas \/ 2 ^ 256 <= gas * l1BaseFee s \/ 2 ^ 256 <= fee).
Proof.
  intros Hwf Hlen gas fee.
  pose proof (getL1GasUsed_spec s data Hwf Hlen) as Hg.
  pose proof (getL1Fee_spec s data Hwf Hlen) as Hf.
  cbv zeta in Hf. fold gas in Hg, Hf. fold fee in Hf.
  rewrite Hg, Hf.
  destruct (Z.ltb_spec gas (2 ^ 256));
    destruct (Z.ltb_spec (gas * l1BaseFee s) (2 ^ 256));
    destruct (Z.ltb_spec fee (2 ^ 256)); cbn [andb];
    repeat split; intros; try congruence; try lia;
    try (match goal with H : _ \/ _ |- _ => lia end).
Qed.

Lemma L1Fee_mirrors_contract_witness :
  wf oracle_default /\ Z.of_nat (length [x00; x01]) < 2 ^ 60 /\
  forall v, getL1Fee oracle_default [x00; x01] = Some v ->
    CalculateL1Fee [x00; x01] 2750 30000000000 1 = v.
Proof.
  assert (wf oracle_default) as Hwf by (repeat split; vm_compute; congruence).
  assert (Z.of_nat (length [x00; x01]) < 2 ^ 60) as Hlen by reflexivity.
  split; [exact Hwf | split; [exact Hlen|]].
  exact (proj1 (proj2
           (L1Fee_mirrors_contract oracle_default [x00; x01] Hwf Hlen))).
Defined.

(** C3 (as stated) fails where the fee does not fit in [uint256]: with
    overhead 1, base fee 2^255 and scalar 2 the Go calculator returns 2^256
    for the empty byte sequence, and the contract call reverts. *)
Lemma L1Fee_contract_reverts :
  wf oracle_overflowing /\
  CalculateL1Fee [] (overhead oracle_overflowing) (l1BaseFee oracle_overflowing)
    (scalar oracle_overflowing) = 2 ^ 256 /\
  getL1Fee oracle_overflowing [] = None /\
  getL1Fee oracle_overflowing [] <>
    Some (CalculateL1Fee [] (overhead oracle_overflowing)
            (l1BaseFee oracle_overflowing) (scalar oracle_overflowing)).
Proof.
  split; [repeat split; vm_compute; congruence|].
  split; [reflexivity|]. split; [reflexivity|]. vm_compute. discriminate.
Qed.

(** ** Transaction encoder *)

(** The filler of the padded mode: the two characters of "ff", 68 times. *)
Lemma filler_bytes : signature_filler = repeat x66 136.
Proof. reflexivity. Qed.

Lemma CalculateL1GasUsed_app_filler (raw : list byte) (overhead : Z) :
  Z.of_nat (length raw) + 136 < 2 ^ 60 ->
  CalculateL1GasUsed (raw ++ signature_filler) overhead =
  CalculateL1GasUsed raw overhead + 136 * 16.
Proof.
  intros Hlen.
  assert (Z.of_nat (length (raw ++ signature_filler)) < 2 ^ 60) as Hlen'.
  { rewrite length_app, Nat2Z.inj_add, filler_bytes, repeat_length. lia. }
  pose proof (cost_bound_of_length _ Hlen') as Hc'.
  assert (Z.of_nat (length raw) < 2 ^ 60) as Hraw by lia.
  pose proof (cost_bound_of_length _ Hraw) as Hc.
  rewrite !CalculateL1GasUsed_no_wrap by lia.
  rewrite zeroCount_app, nonZeroCount_app.
  change (zeroCount signature_filler) with 0.
  change (nonZeroCount signature_filler) with 136.
  lia.
Qed.

(** C9: whenever the serialization of a transaction succeeds, the padded
    mode returns the bytes of the signed mode followed by a filler of 136
    bytes, every one the character 'f' (0x66, neither 0xFF nor zero); the
    filler adds no zero byte and 136 non-zero bytes, costs 136*16 on its
    own, and adds exactly 136*16 to the gas estimate of the encoding (for
    encodings within the range of the byte counters). *)
Theorem rawTransaction_padding
    (EncodeRLP : Transaction -> result (list byte)) (tx : Transaction)
    (raw : list byte) :
  EncodeRLP tx = Ok raw ->
  rawTransaction EncodeRLP tx false = Ok raw /\
  rawTransaction EncodeRLP tx true = Ok (raw ++ signature_filler) /\
  signature_filler = bytes_Repeat (list_byte_of_string "ff") 68 /\
  length signature_filler = 136%nat /\
  (forall b, In b signature_filler -> b = x66 /\ b <> xff /\ b <> x00) /\
  zeroCount (raw ++ signature_filler) = zeroCount raw /\
  nonZeroCount (raw ++ signature_filler) = nonZeroCount raw + 136 /\
  zeroesAndOnes signature_filler = (0, 136) /\
  CalculateL1GasUsed signature_filler 0 = 136 * 16 /\
  (Z.of_nat (length raw) + 136 < 2 ^ 60 ->
   forall overhead,
     CalculateL1GasUsed (raw ++ signature_filler) overhead =
     CalculateL1GasUsed raw overhead + 136 * 16).
Proof.
  intros Henc. unfold rawTransaction. rewrite Henc.
  split; [reflexivity|]. split; [reflexivity|]. split; [reflexivity|].
  split; [reflexivity|].
  split.
  { intros b Hb. rewrite filler_bytes in Hb. apply repeat_spec in Hb. subst b.
    split; [reflexivity|]. split; discriminate. }
  split.
  { rewrite zeroCount_app. change (zeroCount signature_filler) with 0. lia. }
  split; [now rewrite nonZeroCount_app|].
  split; [reflexivity|]. split; [reflexivity|].
  intros Hlen overhead. now apply CalculateL1GasUsed_app_filler.
Qed.

Lemma rawTransaction_padding_witness :
  exists raw,
    RLP.EncodeRLP tx_signed = Ok raw /\
    rawTransaction RLP.EncodeRLP tx_signed true =
      Ok (raw ++ signature_filler) /\
    length raw = 110%nat.
Proof.
  eexists. split; [reflexivity|].
  split; [|reflexivity].
  exact (proj1 (proj2
           (rawTransaction_padding RLP.EncodeRLP tx_signed _ eq_refl))).
Defined.

(** ** Fee aggregator *)

Section FeePaths.

Variable EncodeRLP : Transaction -> result (list byte).
Variable L2GasPriceOracleAddress : Address.
Variables L1GasPriceSlot OverheadSlot ScalarSlot : Hash.

Lemma CalculateFee_ok (tx : Transaction) (gpo : RollupOracle)
    (l1GasPrice overhead scalar : Z) (raw : list byte) :
  SuggestL1GasPrice gpo = Ok l1GasPrice ->
  SuggestOverhead gpo = Ok overhead ->
  SuggestScalar gpo = Ok scalar ->
  EncodeRLP tx = Ok raw ->
  CalculateFee EncodeRLP tx gpo =
  Ok (CalculateL1Fee raw overhead l1GasPrice scalar +
      types.Price tx * wrap64 (types.GasLimit tx)).
Proof.
  intros Hp Ho Hs Henc. unfold CalculateFee, rawTransaction.
  now rewrite Hp, Ho, Hs, Henc.
Qed.

Lemma CalculateL1MsgFee_ok (msg : Message) (state : StateDb)
    (l1GasPrice overhead scalar : Z) (rawm : list byte) :
  ReadGPOStorageSlots L2GasPriceOracleAddress L1GasPriceSlot OverheadSlot
    ScalarSlot state = (l1GasPrice, overhead, scalar) ->
  EncodeRLP (asTransaction msg) = Ok rawm ->
  CalculateL1MsgFee EncodeRLP L2GasPriceOracleAddress L1GasPriceSlot
    OverheadSlot ScalarSlot msg state =
  Ok (CalculateL1Fee (rawm ++ signature_filler) overhead l1GasPrice scalar).
Proof.
  intros Hread Henc. unfold CalculateL1MsgFee, rawTransaction.
  now rewrite Henc, Hread.
Qed.

(** C4 (as amended): for a transaction and a message of the same content
    and one parameter snapshot given by both backends, the full-transaction
    path returns [CalculateL1Fee] of the transaction's own encoding plus
    [gasPrice * gasLimit], and the message path returns [CalculateL1Fee] of
    the encoding of the unsigned transaction followed by the 136-byte
    filler plus [gasPrice * gasUsed].  The L1 portions are the same
    calculation under the same parameters over these two byte sequences;
    they are equal when the two sequences have the same counts of zero and
    non-zero bytes. *)
Theorem fee_paths (tx : Transaction) (msg : Message) (gpo : RollupOracle)
    (state : StateDb) (gasUsed l1GasPrice overhead scalar : Z)
    (raw rawm : list byte) :
  same_content tx msg ->
  0 <= Gas msg < 2 ^ 64 ->
  SuggestL1GasPrice gpo = Ok l1GasPrice ->
  SuggestOverhead gpo = Ok overhead ->
  SuggestScalar gpo = Ok scalar ->
  ReadGPOStorageSlots L2GasPriceOracleAddress L1GasPriceSlot OverheadSlot
    ScalarSlot state = (l1GasPrice, overhead, scalar) ->
  EncodeRLP tx = Ok raw ->
  EncodeRLP (asTransaction msg) = Ok rawm ->
  let l1_full := CalculateL1Fee raw overhead l1GasPrice scalar in
  let l1_msg :=
    CalculateL1Fee (rawm ++ signature_filler) overhead l1GasPrice scalar in
  CalculateFee EncodeRLP tx gpo = Ok (l1_full + GasPrice msg * Gas msg) /\
  CalculateMsgFee EncodeRLP L2GasPriceOracleAddress L1GasPriceSlot
    OverheadSlot ScalarSlot msg state gasUsed =
    Ok (l1_msg + GasPrice msg * gasUsed) /\
  (zeroesAndOnes raw = zeroesAndOnes (rawm ++ signature_filler) ->
   l1_full = l1_msg).
Proof.
  intros (_ & Hprice & Hgas & _) Hrange Hp Ho Hs Hread Henc Hencm.
  intros l1_full l1_msg.
  split; [|split].
  - rewrite (CalculateFee_ok tx gpo l1GasPrice overhead scalar raw)
      by assumption.
    now rewrite Hprice, Hgas, wrap64_small by assumption.
  - unfold CalculateMsgFee.
    now rewrite (CalculateL1MsgFee_ok msg state l1GasPrice overhead scalar rawm)
      by assumption.
  - intros Hcount. subst l1_full l1_msg.
    unfold CalculateL1Fee, CalculateL1GasUsed. now rewrite Hcount.
Qed.

End FeePaths.

Lemma fee_paths_witness :
  same_content tx_signed msg_transfer /\
  CalculateFee RLP.EncodeRLP tx_signed gpo_default =
    Ok (133860000000000 + 20000000000 * 21000) /\
  CalculateMsgFee RLP.EncodeRLP predeploy_address slot_l1GasPrice
    slot_overhead slot_scalar msg_transfer state_default 20000 =
    Ok (168300000000000 + 20000000000 * 20000).
Proof.
  assert (same_content tx_signed msg_transfer) as Hsame
    by (repeat split; reflexivity).
  split; [exact Hsame|].
  assert (0 <= Gas msg_transfer < 2 ^ 64) as Hrange
    by (split; vm_compute; congruence).
  pose proof (fee_paths RLP.EncodeRLP predeploy_address slot_l1GasPrice
                slot_overhead slot_scalar tx_signed msg_transfer gpo_default
                state_default 20000 30000000000 2750 1 _ _ Hsame Hrange
                eq_refl eq_refl eq_refl eq_refl eq_refl eq_refl) as H.
  exact (conj (proj1 H) (proj1 (proj2 H))).
Defined.

(** C4 (as stated) fails on a signed transfer and the message of the same
    content, under one parameter snapshot and with the gas used equal to the
    gas limit (so that the L2 portions are equal): the L1 portion of the
    full-transaction path is 133860000000000 and the L1 portion of the
    message path is 168300000000000, and the two fees differ. *)
Lemma fee_paths_L1_portions_differ :
  same_content tx_signed msg_transfer /\
  SuggestL1GasPrice gpo_default = Ok 30000000000 /\
  SuggestOverhead gpo_default = Ok 2750 /\
  SuggestScalar gpo_default = Ok 1 /\
  ReadGPOStorageSlots predeploy_address slot_l1GasPrice slot_overhead
    slot_scalar state_default = (30000000000, 2750, 1) /\
  CalculateFee RLP.EncodeRLP tx_signed gpo_default =
    Ok (133860000000000 + GasPrice msg_transfer * Gas msg_transfer) /\
  CalculateL1MsgFee RLP.EncodeRLP predeploy_address slot_l1GasPrice
    slot_overhead slot_scalar msg_transfer state_default =
    Ok 168300000000000 /\
  CalculateMsgFee RLP.EncodeRLP predeploy_address slot_l1GasPrice
    slot_overhead slot_scalar msg_transfer state_default (Gas msg_transfer) =
    Ok (168300000000000 + GasPrice msg_transfer * Gas msg_transfer) /\
  133860000000000 <> 168300000000000.
Proof.
  split; [repeat split; reflexivity|].
  do 7 (split; [reflexivity|]). discriminate.
Qed.

(** ** Fee validator *)

Lemma Cmp_lt (x y : Z) : (big.Cmp x y =? -1) = true <-> x < y.
Proof.
  unfold big.Cmp.
  destruct (Z.compare_spec x y); cbn; split; intros; lia || congruence.
Qed.

Lemma Cmp_gt (x y : Z) : (big.Cmp x y =? 1) = true <-> x > y.
Proof.
  unfold big.Cmp.
  destruct (Z.compare_spec x y); cbn; split; intros; lia || congruence.
Qed.

Section ValidatorProperties.

(** The implementation's choice for out-of-range conversions. *)
Variable oor : float64 -> Z.

(** With both fees present, [PaysEnough] computes the floor first; when that
    panics so does the call. *)
Lemma PaysEnough_unfold (opts : PaysEnoughOpts) (u e : Z) :
  UserFee opts = Some u -> ExpectedFee opts = Some e ->
  PaysEnough oor opts =
  match fee_floor oor e (ThresholdDown opts) with
  | Panics msg => Panics msg
  | Returns floor =>
      if u <? floor then Returns (Some ErrFeeTooLow)
      else
        match ThresholdUp opts with
        | None => Returns None
        | Some t =>
            match mulByFloat oor e t with
            | Panics msg => Panics msg
            | Returns cap =>
                if cap <? u - e then Returns (Some ErrFeeTooHigh)
                else Returns None
            end
        end
  end.
Proof.
  intros Hu He. unfold PaysEnough, fee_floor. rewrite Hu, He.
  destruct (ThresholdDown opts) as [td|].
  - destruct (mulByFloat oor e td) as [floor|msg]; [|reflexivity].
    destruct (Z.ltb_spec u floor) as [Hlt|Hge].
    + now rewrite (proj2 (Cmp_lt u floor) Hlt).
    + destruct (big.Cmp u floor =? -1) eqn:Hc; [apply Cmp_lt in Hc; lia|].
      destruct (ThresholdUp opts) as [tu|]; [|reflexivity].
      destruct (mulByFloat oor e tu) as [cap|msg]; [|reflexivity].
      destruct (Z.ltb_spec cap (u - e)) as [Hlt|Hge'].
      * now rewrite (proj2 (Cmp_gt (u - e) cap)) by lia.
      * destruct (big.Cmp (u - e) cap =? 1) eqn:Hc';
          [apply Cmp_gt in Hc'; lia|reflexivity].
  - destruct (Z.ltb_spec u e) as [Hlt|Hge].
    + now rewrite (proj2 (Cmp_lt u e) Hlt).
    + destruct (big.Cmp u e =? -1) eqn:Hc; [apply Cmp_lt in Hc; lia|].
      destruct (ThresholdUp opts) as [tu|]; [|reflexivity].
      destruct (mulByFloat oor e tu) as [cap|msg]; [|reflexivity].
      destruct (Z.ltb_spec cap (u - e)) as [Hlt|Hge'].
      * now rewrite (proj2 (Cmp_gt (u - e) cap)) by lia.
      * destruct (big.Cmp (u - e) cap =? 1) eqn:Hc';
          [apply Cmp_gt in Hc'; lia|reflexivity].
Qed.

(** C7: when the user fee or the expected fee is absent, [PaysEnough]
    returns an error that is [errMissingInput] (under [errors.Is]) whatever
    the thresholds are, and that error is neither [ErrFeeTooLow] nor
    [ErrFeeTooHigh]; when both fees are present no error it returns is
    [errMissingInput]. *)
Theorem PaysEnough_missing_input (opts : PaysEnoughOpts) :
  (UserFee opts = None \/ ExpectedFee opts = None ->
   exists err,
     PaysEnough oor opts = Returns (Some err) /\
     errors_Is err errMissingInput = true /\
     errors_Is err ErrFeeTooLow = false /\
     errors_Is err ErrFeeTooHigh = false) /\
  (forall u e err,
     UserFee opts = Some u -> ExpectedFee opts = Some e ->
     PaysEnough oor opts = Returns (Some err) ->
     errors_Is err errMissingInput = false).
Proof.
  split.
  - intros Hmissing. unfold PaysEnough.
    destruct (UserFee opts) as [u|].
    + destruct (ExpectedFee opts) as [e|].
      * destruct Hmissing; discriminate.
      * eexists. split; [reflexivity|]. repeat split.
    + eexists. split; [reflexivity|]. repeat split.
  - intros u e err Hu He. rewrite (PaysEnough_unfold opts u e Hu He).
    destruct (fee_floor oor e (ThresholdDown opts)) as [floor|msg];
      [|discriminate].
    destruct (u <? floor); [intros [= <-]; reflexivity|].
    destruct (ThresholdUp opts) as [t|]; [|discriminate].
    destruct (mulByFloat oor e t) as [cap|msg]; [|discriminate].
    destruct (cap <? u - e); [intros [= <-]; reflexivity|discriminate].
Qed.

End ValidatorProperties.

Lemma PaysEnough_missing_input_witness :
  (exists err,
     PaysEnough out_of_range_zero
       (request None (Some 0) None (Some threshold_3)) = Returns (Some err) /\
     errors_Is err errMissingInput = true /\
     errors_Is err ErrFeeTooLow = false /\
     errors_Is err ErrFeeTooHigh = false) /\
  (forall err,
     PaysEnough out_of_range_zero (request (Some 1) (Some 2) None None) =
       Returns (Some err) ->
     errors_Is err errMissingInput = false).
Proof.
  split.
  - apply (proj1 (PaysEnough_missing_input out_of_range_zero
                    (request None (Some 0) None (Some threshold_3)))).
    left. reflexivity.
  - intros err.
    apply (proj2 (PaysEnough_missing_input out_of_range_zero
                    (request (Some 1) (Some 2) None None))
             1 2 err eq_refl eq_refl).
Defined.

(** The table of [TestPaysEnough]. *)
Example PaysEnough_test_table (oor : float64 -> Z) :
  (exists err,
     PaysEnough oor (request None (Some 0) None None) = Returns (Some err) /\
     errors_Is err errMissingInput = true) /\
  (exists err,
     PaysEnough oor (request None None None None) = Returns (Some err) /\
     errors_Is err errMissingInput = true) /\
  PaysEnough oor (request (Some 1) (Some 1) None None) = Returns None /\
  PaysEnough oor (request (Some 1) (Some 2) None None) =
    Returns (Some ErrFeeTooLow) /\
  PaysEnough oor (request (Some 1) (Some 2) (Some threshold_0_5) None) =
    Returns None /\
  PaysEnough oor (request (Some 256) (Some 1) None (Some threshold_1_5)) =
    Returns (Some ErrFeeTooHigh) /\
  PaysEnough oor
    (request (Some 10000) (Some 1) (Some threshold_0_8) (Some threshold_3)) =
    Returns (Some ErrFeeTooHigh) /\
  PaysEnough oor
    (request (Some 1) (Some 10000) (Some threshold_0_8) (Some threshold_3)) =
    Returns (Some ErrFeeTooLow) /\
  PaysEnough oor
    (request (Some 0) (Some 10000) (Some threshold_0_8) (Some threshold_3)) =
    Returns (Some ErrFeeTooLow).
Proof.
  split; [eexists; split; reflexivity|].
  split; [eexists; split; reflexivity|].
  repeat split.
Qed.

(** ** Threshold rounding *)

Lemma round_exact (prec m e : Z) :
  Z.log2 m + 1 <= prec -> big.round prec m e = (m, e).
Proof.
  intros Hfit. unfold big.round.
  destruct (Z.leb_spec (Z.log2 m + 1 - prec) 0); [reflexivity|lia].
Qed.

(** A value that fits the format is returned as it is. *)
Lemma Float64_exact (neg : bool) (m : positive) (ex : Z) :
  Z.log2 (Zpos m) < 53 -> -1074 <= ex -> Z.log2 (Zpos m) + ex <= 1023 ->
  big.Float64 (big.finite neg m ex) = big.finite neg m ex.
Proof.
  intros Hbits Hmin Hmax. unfold big.Float64.
  pose proof (Z.log2_nonneg (Zpos m)) as Hlog.
  set (e := Z.log2 (Zpos m) + ex).
  set (p := if e <? big.emin then big.mbits + 1 - big.emin + e
            else big.mbits + 1).
  assert (Z.log2 (Zpos m) + 1 <= p) as Hp.
  { subst p e. unfold big.emin, big.mbits, big.bias.
    destruct (Z.ltb_spec (Z.log2 (Zpos m) + ex) (1 - 1023)); lia. }
  destruct (Z.ltb_spec p 0) as [Hneg|_]; [lia|].
  destruct (Z.eqb_spec p 0) as [Hz|_]; [lia|].
  cbn [orb andb]. rewrite round_exact by exact Hp.
  unfold big.emax, big.bias.
  destruct (Z.ltb_spec 1023 (Z.log2 (Zpos m) + ex)); [lia|reflexivity].
Qed.

Lemma ceil_scaled_pos (a e : Z) : 0 < a -> 0 < ceil_scaled a e.
Proof.
  intros Ha. unfold ceil_scaled.
  destruct (Z.leb_spec 0 e) as [He|He].
  - apply Z.mul_pos_pos; [exact Ha|]. apply Z.pow_pos_nonneg; lia.
  - assert (0 < 2 ^ (- e)) as Hpow by (apply Z.pow_pos_nonneg; lia).
    assert (- a / 2 ^ (- e) < 0) by (apply Z.div_lt_upper_bound; lia).
    lia.
Qed.

Lemma ceil_scaled_le (a e : Z) : 0 < a -> e <= 0 -> ceil_scaled a e <= a.
Proof.
  intros Ha He. unfold ceil_scaled.
  destruct (Z.leb_spec 0 e) as [He'|He'].
  - replace e with 0 by lia. lia.
  - assert (0 < 2 ^ (- e)) as Hpow by (apply Z.pow_pos_nonneg; lia).
    assert (- a <= - a / 2 ^ (- e)); [|lia].
    apply Z.div_le_lower_bound; [exact Hpow|]. nia.
Qed.

Lemma Ceil_finite (neg : bool) (m : positive) (e : Z) :
  math.Ceil (big.finite neg m e) =
  match ceil_scaled (if neg then Zneg m else Zpos m) e with
  | Z0 => big.zero neg
  | Zpos p => big.finite false p 0
  | Zneg p => big.finite true p 0
  end.
Proof. reflexivity. Qed.

Section ThresholdRounding.

Variable oor : float64 -> Z.

Lemma uint64_of_float64_range (f : float64) : 0 <= uint64_of_float64 oor f < 2 ^
    64.
Proof.
  destruct f as [neg|neg m e|neg]; cbn [uint64_of_float64].
  - lia.
  - set (t := if 0 <=? e then Zpos m * 2 ^ e else Zpos m / 2 ^ (- e)).
    assert (0 <= t) as Ht.
    { subst t. destruct (Z.leb_spec 0 e).
      - apply Z.mul_nonneg_nonneg; [lia|]. apply Z.pow_nonneg. lia.
      - apply Z.div_pos; [lia|]. apply Z.pow_pos_nonneg; lia. }
    destruct neg.
    + destruct (t =? 0); [lia|apply wrap64_range].
    + destruct (Z.ltb_spec t (2 ^ 64)); [lia|apply wrap64_range].
  - apply wrap64_range.
Qed.

Lemma uint64_of_integer (p : positive) :
  Zpos p < 2 ^ 64 -> uint64_of_float64 oor (big.finite false p 0) = Zpos p.
Proof.
  intros Hlt. cbn [uint64_of_float64]. change (0 <=? 0) with true. cbv iota.
  rewrite Z.pow_0_r, Z.mul_1_r.
  destruct (Z.ltb_spec (Zpos p) (2 ^ 64)); [reflexivity|lia].
Qed.

Lemma mulByFloat_range (num : Z) (t : big.Float) (r : Z) :
  mulByFloat oor num t = Returns r -> 0 <= r < 2 ^ 64.
Proof.
  unfold mulByFloat.
  destruct (big.Mul 64 (big.SetUint64 (big.Uint64 num)) t) as [product|msg];
    [|discriminate].
  intros [= <-]. apply uint64_of_float64_range.
Qed.


(** Where the product fits the 53 bits of a [float64] mantissa, nothing is
    rounded and the result is the exact integer ceiling. *)
Lemma mulByFloat_exact (num : Z) (m : positive) (ex : Z) :
  0 <= num -> num * Zpos m < 2 ^ 53 -> -1074 <= ex <= 0 ->
  mulByFloat oor num (big.finite false m ex) =
  Returns (ceil_scaled (num * Zpos m) ex).
Proof.
  intros Hnum Hfit Hex. unfold mulByFloat, big.Uint64.
  rewrite Z.abs_eq by exact Hnum.
  rewrite wrap64_small by nia.
  destruct num as [|n|n]; [|clear Hnum|lia].
  - cbn. unfold ceil_scaled.
    destruct (0 <=? ex); [reflexivity|].
    now rewrite Z.div_0_l by (apply Z.pow_nonzero; lia).
  - assert (Z.log2 (Zpos (n * m)) < 53) as Hbits
      by (apply Z.log2_lt_pow2; [reflexivity|exact Hfit]).
    pose proof (Z.log2_nonneg (Zpos (n * m))) as Hlog.
    cbn [big.SetUint64 big.of_mant big.Mul xorb].
    rewrite round_exact by lia. cbn [big.of_mant]. rewrite Z.add_0_l.
    rewrite Float64_exact by lia.
    rewrite Ceil_finite.
    change (Zpos n * Zpos m) with (Zpos (n * m)).
    pose proof (ceil_scaled_pos (Zpos (n * m)) ex eq_refl) as Hpos.
    pose proof (ceil_scaled_le (Zpos (n * m)) ex eq_refl (proj2 Hex)) as Hle.
    destruct (ceil_scaled (Zpos (n * m)) ex) as [|c|c]; [lia| |lia].
    rewrite uint64_of_integer by lia. reflexivity.
Qed.

Lemma mulByFloat_Panics (num : Z) (t : big.Float) (msg : string) :
  mulByFloat oor num t = Panics msg <->
  big.Uint64 num = 0 /\ is_infinite t = true /\ msg = zero_times_infinity.
Proof.
  unfold mulByFloat. pose proof (wrap64_range (Z.abs num)) as Hu.
  fold (big.Uint64 num) in Hu.
  destruct (big.Uint64 num) as [|u|u] eqn:Hnum; [| |lia];
    destruct t as [neg|neg m e|neg]; cbn.
  - split; [discriminate|]. intros (_ & [=] & _).
  - split; [discriminate|]. intros (_ & [=] & _).
  - split; [intros [= <-]; repeat split|]. intros (_ & _ & ->). reflexivity.
  - split; [discriminate|]. intros ([=] & _).
  - destruct (big.round 64 (Z.pos (u * m)) (0 + e)) as [m' e'].
    split; [discriminate|]. intros ([=] & _).
  - split; [discriminate|]. intros ([=] & _).
Qed.

Lemma mulByFloat_Returns (num : Z) (t : big.Float) :
  is_infinite t = false \/ big.Uint64 num <> 0 ->
  exists r, mulByFloat oor num t = Returns r /\ 0 <= r < 2 ^ 64.
Proof.
  intros Hsafe. destruct (mulByFloat oor num t) as [r|msg] eqn:Hmul.
  - exists r. split; [reflexivity|]. now apply (mulByFloat_range num t).
  - apply mulByFloat_Panics in Hmul as (Hz & Hinf & _).
    destruct Hsafe; congruence.
Qed.

End ThresholdRounding.



(** ** Floor and cap of the validator *)

Section FloorAndCap.

Variable oor : float64 -> Z.

Lemma mulByFloat_pipeline (num : Z) (t : big.Float) :
  mulByFloat oor num t =
  match big.Mul 64 (big.SetUint64 (big.Uint64 num)) t with
  | Returns product =>
      Returns (uint64_of_float64 oor (math.Ceil (big.Float64 product)))
  | Panics msg => Panics msg
  end.
Proof. reflexivity. Qed.

(** The product is undefined, and [Mul] panics, exactly for a zero operand
    and an infinite threshold. *)
Lemma Mul_Panics (num : Z) (t : big.Float) :
  (exists msg, big.Mul 64 (big.SetUint64 (big.Uint64 num)) t = Panics msg) <->
  big.Uint64 num = 0 /\ is_infinite t = true.
Proof.
  split.
  - intros [msg Hmul].
    assert (mulByFloat oor num t = Panics msg) as Hp
      by (rewrite mulByFloat_pipeline; now rewrite Hmul).
    apply mulByFloat_Panics in Hp as (Hz & Hinf & _). now split.
  - intros [Hz Hinf].
    pose proof (proj2 (mulByFloat_Panics oor num t zero_times_infinity)
                  (conj Hz (conj Hinf eq_refl))) as Hp.
    rewrite mulByFloat_pipeline in Hp.
    destruct (big.Mul 64 (big.SetUint64 (big.Uint64 num)) t) as [product|msg];
      [discriminate|now exists msg].
Qed.

(** Where a [float64] holds the product exactly, the threshold product is
    the ceiling of the spec. *)
Lemma mulByFloat_ceil_of_product (num : Z) (t : big.Float) (c : Z) :
  fits_float64 num t = true -> ceil_of_product num t = Some c ->
  mulByFloat oor num t = Returns c.
Proof.
  destruct t as [neg|[] m ex|neg]; cbn [fits_float64 ceil_of_product];
    try discriminate.
  - intros _ [= <-]. unfold mulByFloat, big.SetUint64, big.of_mant.
    destruct (big.Uint64 num); reflexivity.
  - intros Hfit [= <-].
    apply andb_prop in Hfit as [Hfit Hex0].
    apply andb_prop in Hfit as [Hfit Hex].
    apply andb_prop in Hfit as [Hnum Hprod].
    apply Z.leb_le in Hex0, Hex, Hnum. apply Z.ltb_lt in Hprod.
    apply mulByFloat_exact; [exact Hnum|exact Hprod|now split].
Qed.

(** [ErrFeeTooLow] is returned exactly when there is a floor and the user
    fee is below it. *)
Lemma PaysEnough_too_low_iff (opts : PaysEnoughOpts) (u e : Z) :
  UserFee opts = Some u -> ExpectedFee opts = Some e ->
  PaysEnough oor opts = Returns (Some ErrFeeTooLow) <->
  exists floor, fee_floor oor e (ThresholdDown opts) = Returns floor /\
                u < floor.
Proof.
  intros Hu He. rewrite (PaysEnough_unfold oor opts u e Hu He).
  destruct (fee_floor oor e (ThresholdDown opts)) as [floor|msg].
  - destruct (Z.ltb_spec u floor) as [Hlt|Hge].
    + split; [intros _; now exists floor|reflexivity].
    + split.
      * destruct (ThresholdUp opts) as [t|]; [|discriminate].
        destruct (mulByFloat oor e t) as [cap|msg]; [|discriminate].
        destruct (cap <? u - e); discriminate.
      * intros (f & [= <-] & Hlt). lia.
  - split; [discriminate|]. intros (f & [=] & _).
Qed.

(** C5 (as amended): with both fees present, [PaysEnough] returns
    [ErrFeeTooLow] exactly when the user fee is below the floor, whatever the
    upward threshold.  Without a downward threshold the floor is the
    expected fee.  With one, the floor is what the code computes: the low 64
    bits of the expected fee as a [big.Float] of precision 64, times the
    threshold and rounded to 64 bits, converted to [float64], rounded up by
    [math.Ceil] and converted to [uint64]; when that product is undefined (a
    zero operand times an infinite threshold) the call panics.  The floor is
    the ceiling of the exact product, [ceil_of_product], wherever a
    [float64] holds the product exactly. *)
Theorem PaysEnough_fee_too_low (opts : PaysEnoughOpts) (u e : Z) :
  UserFee opts = Some u -> ExpectedFee opts = Some e ->
  (ThresholdDown opts = None ->
   (PaysEnough oor opts = Returns (Some ErrFeeTooLow) <-> u < e)) /\
  (forall t,
     ThresholdDown opts = Some t ->
     match big.Mul 64 (big.SetUint64 (big.Uint64 e)) t with
     | Returns product =>
         PaysEnough oor opts = Returns (Some ErrFeeTooLow) <->
         u < uint64_of_float64 oor (math.Ceil (big.Float64 product))
     | Panics msg => PaysEnough oor opts = Panics msg
     end) /\
  (forall t,
     ThresholdDown opts = Some t ->
     (big.Uint64 e = 0 /\ is_infinite t = true ->
      PaysEnough oor opts = Panics zero_times_infinity) /\
     ((exists msg,
         big.Mul 64 (big.SetUint64 (big.Uint64 e)) t = Panics msg) <->
      big.Uint64 e = 0 /\ is_infinite t = true)) /\
  (forall t c,
     ThresholdDown opts = Some t ->
     fits_float64 e t = true -> ceil_of_product e t = Some c ->
     (PaysEnough oor opts = Returns (Some ErrFeeTooLow) <-> u < c)) /\
  (forall up,
     PaysEnough oor opts = Returns (Some ErrFeeTooLow) <->
     PaysEnough oor (request (Some u) (Some e) (ThresholdDown opts) up) =
       Returns (Some ErrFeeTooLow)).
Proof.
  intros Hu He.
  split; [|split; [|split; [|split]]].
  - intros Hdown. rewrite (PaysEnough_too_low_iff opts u e Hu He), Hdown.
    cbn [fee_floor].
    split; [intros (f & [= <-] & Hlt); exact Hlt|].
    intros Hlt. now exists e.
  - intros t Hdown.
    destruct (big.Mul 64 (big.SetUint64 (big.Uint64 e)) t) as [product|msg]
      eqn:Hmul.
    + rewrite (PaysEnough_too_low_iff opts u e Hu He), Hdown.
      cbn [fee_floor]. rewrite mulByFloat_pipeline, Hmul.
      split; [intros (f & [= <-] & Hlt); exact Hlt|].
      intros Hlt. eexists. split; [reflexivity|exact Hlt].
    + rewrite (PaysEnough_unfold oor opts u e Hu He), Hdown.
      cbn [fee_floor]. now rewrite mulByFloat_pipeline, Hmul.
  - intros t Hdown. split; [|apply Mul_Panics].
    intros [Hz Hinf].
    rewrite (PaysEnough_unfold oor opts u e Hu He), Hdown.
    cbn [fee_floor].
    now rewrite (proj2 (mulByFloat_Panics oor e t zero_times_infinity)).
  - intros t c Hdown Hfit Hceil.
    rewrite (PaysEnough_too_low_iff opts u e Hu He), Hdown.
    cbn [fee_floor]. rewrite (mulByFloat_ceil_of_product e t c Hfit Hceil).
    split; [intros (f & [= <-] & Hlt); exact Hlt|].
    intros Hlt. now exists c.
  - intros up.
    rewrite (PaysEnough_too_low_iff opts u e Hu He).
    rewrite (PaysEnough_too_low_iff
               (request (Some u) (Some e) (ThresholdDown opts) up) u e
               eq_refl eq_refl).
    reflexivity.
Qed.

(** C6 (as amended): with both fees present and the user fee not below the
    floor: without an upward threshold [PaysEnough] succeeds.  With one, the
    cap is what the code computes from the expected fee and the threshold
    (precision 64, then [float64], then [math.Ceil], then [uint64]);
    [PaysEnough] returns [ErrFeeTooHigh] exactly when
    [userFee - expectedFee] exceeds the cap and succeeds otherwise, and it
    panics when the product is undefined: fees 0 and 0 with an infinite
    upward threshold panic.  The cap is the ceiling of the exact product,
    [ceil_of_product], wherever a [float64] holds the product exactly: user
    fee 256, expected fee 1 and upward threshold 1.5 give a cap of 2 and
    [ErrFeeTooHigh]. *)
Theorem PaysEnough_fee_too_high (opts : PaysEnoughOpts) (u e floor : Z) :
  UserFee opts = Some u -> ExpectedFee opts = Some e ->
  fee_floor oor e (ThresholdDown opts) = Returns floor ->
  ~ u < floor ->
  (ThresholdUp opts = None -> PaysEnough oor opts = Returns None) /\
  (forall t,
     ThresholdUp opts = Some t ->
     match big.Mul 64 (big.SetUint64 (big.Uint64 e)) t with
     | Returns product =>
         let cap := uint64_of_float64 oor (math.Ceil (big.Float64 product)) in
         (PaysEnough oor opts = Returns (Some ErrFeeTooHigh) <-> u - e > cap) /\
         (~ u - e > cap -> PaysEnough oor opts = Returns None)
     | Panics msg => PaysEnough oor opts = Panics msg
     end) /\
  (forall t,
     ThresholdUp opts = Some t ->
     ((exists msg, PaysEnough oor opts = Panics msg) <->
      big.Uint64 e = 0 /\ is_infinite t = true)) /\
  (forall t c,
     ThresholdUp opts = Some t ->
     fits_float64 e t = true -> ceil_of_product e t = Some c ->
     (PaysEnough oor opts = Returns (Some ErrFeeTooHigh) <-> u - e > c) /\
     (~ u - e > c -> PaysEnough oor opts = Returns None)) /\
  (ceil_of_product 1 threshold_1_5 = Some 2 /\
   PaysEnough oor (request (Some 256) (Some 1) None (Some threshold_1_5)) =
     Returns (Some ErrFeeTooHigh)) /\
  PaysEnough oor (request (Some 0) (Some 0) None (Some (big.inf false))) =
    Panics zero_times_infinity.
Proof.
  intros Hu He Hfloor Hge.
  rewrite (PaysEnough_unfold oor opts u e Hu He), Hfloor.
  destruct (Z.ltb_spec u floor) as [Hlt|_]; [contradiction|].
  split; [intros ->; reflexivity|].
  split; [|split; [|split; [|split; [split; reflexivity|reflexivity]]]].
  - intros t ->. rewrite mulByFloat_pipeline.
    destruct (big.Mul 64 (big.SetUint64 (big.Uint64 e)) t) as [product|msg];
      [|reflexivity].
    cbv zeta. set (cap := uint64_of_float64 oor _).
    destruct (Z.ltb_spec cap (u - e)) as [Hlt|Hle].
    + split; [split; [lia|reflexivity]|lia].
    + split; [split; [discriminate|lia]|reflexivity].
  - intros t ->. rewrite <- (Mul_Panics e t), mulByFloat_pipeline.
    destruct (big.Mul 64 (big.SetUint64 (big.Uint64 e)) t) as [product|msg].
    + split; intros [m Hm]; [|discriminate Hm].
      destruct (_ <? u - e); discriminate Hm.
    + split; intros _; now exists msg.
  - intros t c -> Hfit Hceil.
    rewrite (mulByFloat_ceil_of_product e t c Hfit Hceil).
    destruct (Z.ltb_spec c (u - e)) as [Hlt|Hle].
    + split; [split; [lia|reflexivity]|lia].
    + split; [split; [discriminate|lia]|reflexivity].
Qed.

End FloorAndCap.

Lemma PaysEnough_fee_too_low_witness :
  (PaysEnough out_of_range_zero (request (Some 1) (Some 2) None None) =
     Returns (Some ErrFeeTooLow) <-> 1 < 2) /\
  (PaysEnough out_of_range_zero
     (request (Some 1) (Some 2) (Some threshold_0_5) None) =
     Returns (Some ErrFeeTooLow) <-> 1 < 1) /\
  (PaysEnough out_of_range_zero
     (request (Some 7999) (Some 10000) (Some threshold_0_8) None) =
     Returns (Some ErrFeeTooLow) <-> 7999 < 8000).
Proof.
  split; [|split].
  - exact (proj1
      (PaysEnough_fee_too_low out_of_range_zero
         (request (Some 1) (Some 2) None None) 1 2 eq_refl eq_refl)
      eq_refl).
  - exact (proj1 (proj2 (proj2 (proj2
      (PaysEnough_fee_too_low out_of_range_zero
         (request (Some 1) (Some 2) (Some threshold_0_5) None) 1 2
         eq_refl eq_refl))))
      threshold_0_5 1 eq_refl eq_refl eq_refl).
  - exact (proj1 (proj2
      (PaysEnough_fee_too_low out_of_range_zero
         (request (Some 7999) (Some 10000) (Some threshold_0_8) None)
         7999 10000 eq_refl eq_refl))
      threshold_0_8 eq_refl).
Defined.

(** C5 (as stated) fails where the two roundings meet.  The exact product
    of the fee and the threshold is 3744433275866564.2501...; rounded to 64
    bits it is 3744433275866564.25, which is half way between two [float64]
    values and goes to the even one, 3744433275866564.  The ceiling of the
    product is 3744433275866565, also when the product is rounded only once,
    to [float64]; a user fee of 3744433275866564 is below it and is
    accepted. *)
Lemma PaysEnough_floor_below_ceiling :
  ceil_of_product fee_rounded_twice threshold_rounded_twice =
    Some 3744433275866565 /\
  math.Ceil
    (big.Float64
       (big.finite false (4775296438810014 * 7062777577053896) (-53))) =
    big.finite false 3744433275866565 0 /\
  big.Mul 64 (big.SetUint64 fee_rounded_twice) threshold_rounded_twice =
    Returns (big.finite false 15337198697949447168 (-12)) /\
  big.Float64 (big.finite false 15337198697949447168 (-12)) =
    big.finite false 7488866551733128 (-1) /\
  mulByFloat out_of_range_zero fee_rounded_twice threshold_rounded_twice =
    Returns 3744433275866564 /\
  3744433275866564 < 3744433275866565 /\
  PaysEnough out_of_range_zero
    (request (Some 3744433275866564) (Some fee_rounded_twice)
       (Some threshold_rounded_twice) None) = Returns None.
Proof. repeat split; vm_compute; reflexivity. Qed.

Lemma PaysEnough_fee_too_high_witness :
  PaysEnough out_of_range_zero
    (request (Some 256) (Some 1) None (Some threshold_1_5)) =
    Returns (Some ErrFeeTooHigh) <-> 256 - 1 > 2.
Proof.
  assert (~ 256 < 1) as Hge by (intros H; discriminate H).
  exact (proj1 (proj1 (proj2 (proj2 (proj2
    (PaysEnough_fee_too_high out_of_range_zero
       (request (Some 256) (Some 1) None (Some threshold_1_5)) 256 1 1
       eq_refl eq_refl eq_refl Hge))))
    threshold_1_5 2 eq_refl eq_refl eq_refl)).
Defined.

(** C6 (as stated) fails on the same product as a cap.  The ceiling of the
    product is 3744433275866565, so an overpayment of 3744433275866565 does
    not exceed it; the cap the code computes is 3744433275866564, and the
    call returns [ErrFeeTooHigh].  And where the claim has the call succeed
    with an overpayment of 0, fees 0 and 0 with an infinite upward threshold
    panic. *)
Lemma PaysEnough_cap_below_ceiling :
  ceil_of_product fee_rounded_twice threshold_rounded_twice =
    Some 3744433275866565 /\
  mulByFloat out_of_range_zero fee_rounded_twice threshold_rounded_twice =
    Returns 3744433275866564 /\
  8519729714676579 - fee_rounded_twice = 3744433275866565 /\
  ~ 8519729714676579 - fee_rounded_twice > 3744433275866565 /\
  PaysEnough out_of_range_zero
    (request (Some 8519729714676579) (Some fee_rounded_twice) None
       (Some threshold_rounded_twice)) = Returns (Some ErrFeeTooHigh) /\
  PaysEnough out_of_range_zero
    (request (Some 0) (Some 0) None (Some (big.inf false))) =
    Panics zero_times_infinity.
Proof.
  split; [vm_compute; reflexivity|].
  split; [vm_compute; reflexivity|].
  split; [vm_compute; reflexivity|].
  split; [intros H; vm_compute in H; discriminate H|].
  split; vm_compute; reflexivity.
Qed.

(** ** The validator leaves its inputs as they were *)

Section Frame.

Variable h0 : Mem.heap.

Lemma frames_ret {A} (Q : A -> Prop) (a : A) : Q a -> frames h0 Q (Mem.ret a).
Proof. intros HQ h Hsub. split; [exact Hsub|]. now intros a' [= <-]. Qed.

Lemma frames_panic {A} (Q : A -> Prop) (msg : string) : frames h0 Q
    (Mem.panic msg).
Proof. intros h Hsub. split; [exact Hsub|]. intros a' [=]. Qed.

Lemma frames_bind {A B} (Q : A -> Prop) (Q' : B -> Prop)
    (m : Mem.M A) (k : A -> Mem.M B) :
  frames h0 Q m -> (forall a, Q a -> frames h0 Q' (k a)) ->
  frames h0 Q' (Mem.bind m k).
Proof.
  intros Hm Hk h Hsub. unfold Mem.bind.
  destruct (Hm h Hsub) as [Hsub' HQ].
  destruct (m h) as [[a|msg] h']; cbn [fst snd] in *.
  - apply (Hk a (HQ a eq_refl) h' Hsub').
  - split; [exact Hsub'|]. intros b [=].
Qed.

Lemma frames_weaken {A} (Q Q' : A -> Prop) (m : Mem.M A) :
  (forall a, Q a -> Q' a) -> frames h0 Q m -> frames h0 Q' m.
Proof.
  intros Himp Hm h Hsub. destruct (Hm h Hsub) as [Hsub' HQ].
  split; [exact Hsub'|]. intros a Ha. apply Himp, HQ, Ha.
Qed.

Lemma frames_new (o : Mem.object) : frames h0 (fresh_for h0) (Mem.new o).
Proof.
  intros h Hsub. unfold Mem.new. cbn [fst snd].
  assert (h !! fresh (dom h) = None) as Hfresh
    by (apply (not_elem_of_dom (D := gset positive)), is_fresh).
  assert (h0 !! fresh (dom h) = None) as Hfresh0
    by (eapply lookup_weaken_None; eassumption).
  split.
  - now apply insert_subseteq_r.
  - now intros a [= <-].
Qed.

Lemma frames_store (z : Mem.loc) (o : Mem.object) :
  fresh_for h0 z -> frames h0 (fun _ => True) (Mem.store z o).
Proof.
  intros Hz h Hsub. unfold Mem.store. cbn [fst snd].
  split; [now apply insert_subseteq_r|trivial].
Qed.

Lemma frames_load_Int (x : Mem.loc) : frames h0 (fun _ => True)
    (Mem.load_Int x).
Proof.
  intros h Hsub. unfold Mem.load_Int.
  destruct (h !! x) as [[v|prec v|o]|]; cbn [fst snd]; split; trivial.
Qed.

Lemma frames_load_Float (x : Mem.loc) : frames h0 (fun _ => True)
    (Mem.load_Float x).
Proof.
  intros h Hsub. unfold Mem.load_Float.
  destruct (h !! x) as [[v|prec v|o]|]; cbn [fst snd]; split; trivial.
Qed.

Lemma frames_load_Opts (x : Mem.loc) : frames h0 (fun _ => True)
    (Mem.load_Opts x).
Proof.
  intros h Hsub. unfold Mem.load_Opts.
  destruct (h !! x) as [[v|prec v|o]|]; cbn [fst snd]; split; trivial.
Qed.

(** One step of a computation: a load, then the rest. *)
Ltac frame_step :=
  lazymatch goal with
  | |- frames _ _ (Mem.bind (Mem.load_Int _) _) =>
      eapply frames_bind; [apply frames_load_Int|intros ? _]
  | |- frames _ _ (Mem.bind (Mem.load_Float _) _) =>
      eapply frames_bind; [apply frames_load_Float|intros ? _]
  | |- frames _ _ (Mem.bind (Mem.load_Opts _) _) =>
      eapply frames_bind; [apply frames_load_Opts|intros ? _]
  | |- frames _ _ (Mem.bind (Mem.store _ _) _) =>
      eapply frames_bind; [apply frames_store; assumption|intros ? _]
  | |- frames _ _ (Mem.bind (Mem.new _) _) =>
      eapply frames_bind; [apply frames_new|intros ? ?]
  | |- frames _ _ (Mem.ret _) => apply frames_ret; try assumption; trivial
  | |- frames _ _ (Mem.panic _) => apply frames_panic
  end.

Lemma frames_Int_Set (z x : Mem.loc) :
  fresh_for h0 z -> frames h0 (fresh_for h0) (Mem.Int_Set z x).
Proof. intros Hz. unfold Mem.Int_Set. repeat frame_step. Qed.

Lemma frames_Int_SetUint64 (z : Mem.loc) (x : Z) :
  fresh_for h0 z -> frames h0 (fresh_for h0) (Mem.Int_SetUint64 z x).
Proof. intros Hz. unfold Mem.Int_SetUint64. repeat frame_step. Qed.

Lemma frames_Int_Sub (z x y : Mem.loc) :
  fresh_for h0 z -> frames h0 (fresh_for h0) (Mem.Int_Sub z x y).
Proof. intros Hz. unfold Mem.Int_Sub. repeat frame_step. Qed.

Lemma frames_Int_Cmp (x y : Mem.loc) : frames h0 (fun _ => True)
    (Mem.Int_Cmp x y).
Proof. unfold Mem.Int_Cmp. repeat frame_step. Qed.

Lemma frames_Int_Uint64 (x : Mem.loc) : frames h0 (fun _ => True)
    (Mem.Int_Uint64 x).
Proof. unfold Mem.Int_Uint64. repeat frame_step. Qed.

Lemma frames_Float_SetUint64 (z : Mem.loc) (x : Z) :
  fresh_for h0 z -> frames h0 (fresh_for h0) (Mem.Float_SetUint64 z x).
Proof.
  intros Hz. unfold Mem.Float_SetUint64. frame_step.
  destruct (big.round _ x 0) as [m e]. repeat frame_step.
Qed.

Lemma frames_Float_Mul (z x y : Mem.loc) :
  fresh_for h0 z -> frames h0 (fresh_for h0) (Mem.Float_Mul z x y).
Proof.
  intros Hz. unfold Mem.Float_Mul. do 3 frame_step.
  destruct (big.Mul _ _ _) as [v|msg]; repeat frame_step.
Qed.

Lemma frames_Float_Float64 (x : Mem.loc) :
  frames h0 (fun _ => True) (Mem.Float_Float64 x).
Proof. unfold Mem.Float_Float64. repeat frame_step. Qed.

Variable oor : float64 -> Z.

Lemma frames_mulByFloat (num float : Mem.loc) :
  frames h0 (fresh_for h0) (Mem.mulByFloat oor num float).
Proof.
  unfold Mem.mulByFloat.
  eapply frames_bind; [apply frames_Int_Uint64|intros u _].
  eapply frames_bind; [apply frames_new|intros z Hz].
  eapply frames_bind; [apply frames_Float_SetUint64, Hz|intros n Hn].
  eapply frames_bind; [apply frames_Float_Mul, Hn|intros product Hproduct].
  eapply frames_bind; [apply frames_Float_Float64|intros pfloat _].
  eapply frames_bind; [apply frames_new|intros z' Hz'].
  apply frames_Int_SetUint64, Hz'.
Qed.

Lemma frames_PaysEnough (opts : Mem.loc) :
  frames h0 (fun _ => True) (Mem.PaysEnough oor opts).
Proof.
  unfold Mem.PaysEnough.
  eapply frames_bind; [apply frames_load_Opts|intros o _].
  destruct (Mem.UserFee o) as [userFee|]; [|now apply frames_ret].
  destruct (Mem.ExpectedFee o) as [expectedFee|]; [|now apply frames_ret].
  eapply frames_bind; [apply frames_new|intros z Hz].
  eapply frames_bind; [apply frames_Int_Set, Hz|intros fee Hfee].
  eapply (frames_bind (fresh_for h0)).
  { destruct (Mem.ThresholdDown o) as [thresholdDown|].
    - apply frames_mulByFloat.
    - now apply frames_ret. }
  intros fee' Hfee'.
  eapply frames_bind; [apply frames_Int_Cmp|intros c _].
  destruct (c =? -1); [now apply frames_ret|].
  destruct (Mem.ThresholdUp o) as [thresholdUp|]; [|now apply frames_ret].
  eapply frames_bind; [apply frames_new|intros z' Hz'].
  eapply frames_bind; [apply frames_Int_Sub, Hz'|intros overpaying _].
  eapply frames_bind; [apply frames_mulByFloat|intros threshold _].
  eapply frames_bind; [apply frames_Int_Cmp|intros c' _].
  destruct (c' =? 1); now apply frames_ret.
Qed.

End Frame.

Lemma value_of_Int_weaken (h h' : Mem.heap) (p : option Mem.loc) (v : option Z)
    :
  h ⊆ h' -> Mem.value_of_Int h p = Some v -> Mem.value_of_Int h' p = Some v.
Proof.
  intros Hsub. unfold Mem.value_of_Int. destruct p as [l|]; [|trivial].
  destruct (h !! l) as [o|] eqn:Hl; [|discriminate].
  now rewrite (lookup_weaken h h' l o Hl Hsub).
Qed.

Lemma value_of_Float_weaken (h h' : Mem.heap) (p : option Mem.loc)
    (v : option big.Float) :
  h ⊆ h' -> Mem.value_of_Float h p = Some v ->
  Mem.value_of_Float h' p = Some v.
Proof.
  intros Hsub. unfold Mem.value_of_Float. destruct p as [l|]; [|trivial].
  destruct (h !! l) as [o|] eqn:Hl; [|discriminate].
  now rewrite (lookup_weaken h h' l o Hl Hsub).
Qed.

Lemma request_at_weaken (h h' : Mem.heap) (opts : Mem.loc)
    (req : PaysEnoughOpts) :
  h ⊆ h' -> Mem.request_at h opts = Some req ->
  Mem.request_at h' opts = Some req.
Proof.
  intros Hsub. unfold Mem.request_at.
  destruct (h !! opts) as [o|] eqn:Hopts; [|discriminate].
  rewrite (lookup_weaken h h' opts o Hopts Hsub).
  destruct o as [v|prec v|o]; try discriminate.
  destruct (Mem.value_of_Int h (Mem.UserFee o)) as [u|] eqn:Hu; [|discriminate].
  destruct (Mem.value_of_Int h (Mem.ExpectedFee o)) as [e|] eqn:He;
    [|discriminate].
  destruct (Mem.value_of_Float h (Mem.ThresholdUp o)) as [up|] eqn:Hup;
    [|discriminate].
  destruct (Mem.value_of_Float h (Mem.ThresholdDown o)) as [down|] eqn:Hdown;
    [|discriminate].
  rewrite (value_of_Int_weaken h h' _ _ Hsub Hu).
  rewrite (value_of_Int_weaken h h' _ _ Hsub He).
  rewrite (value_of_Float_weaken h h' _ _ Hsub Hup).
  now rewrite (value_of_Float_weaken h h' _ _ Hsub Hdown).
Qed.

(** C10: whatever [PaysEnough] returns, and also when it panics, every
    object the store held before the call holds the same value after it: the
    request struct, the two fees and the two thresholds are unchanged, and
    every write of the call (the copy of the expected fee, the relaxed floor,
    the overpayment, the threshold products) goes to an object the call has
    allocated itself. *)
Theorem PaysEnough_frame (oor : float64 -> Z) (opts : Mem.loc) (h : Mem.heap) :
  let h' := snd (Mem.PaysEnough oor opts h) in
  h ⊆ h' /\
  (forall l o, h !! l = Some o -> h' !! l = Some o) /\
  (forall req, Mem.request_at h opts = Some req ->
               Mem.request_at h' opts = Some req).
Proof.
  intros h'.
  assert (h ⊆ h') as Hsub
    by (apply (frames_PaysEnough h oor opts h); reflexivity).
  split; [exact Hsub|]. split.
  - intros l o Hl. exact (lookup_weaken h h' l o Hl Hsub).
  - intros req. now apply request_at_weaken.
Qed.

Lemma PaysEnough_frame_witness :
  Mem.request_at store_example 1%positive =
    Some (request (Some 1) (Some 2) (Some threshold_0_5) None) /\
  Mem.request_at
    (snd (Mem.PaysEnough out_of_range_zero 1%positive store_example))
    1%positive =
    Some (request (Some 1) (Some 2) (Some threshold_0_5) None).
Proof.
  assert (Mem.request_at store_example 1%positive =
          Some (request (Some 1) (Some 2) (Some threshold_0_5) None)) as Hreq
    by (vm_compute; reflexivity).
  split; [exact Hreq|].
  exact (proj2 (proj2
           (PaysEnough_frame out_of_range_zero 1%positive store_example))
           _ Hreq).
Defined.

(** ** The validator on pointers computes the validator on values *)

Section Refinement.

Lemma wp_ret {A} (a : A) (Q : outcome A -> Mem.heap -> Prop) (h : Mem.heap) :
  Q (Returns a) h -> wp (Mem.ret a) Q h.
Proof. trivial. Qed.

Lemma wp_bind {A B} (m : Mem.M A) (k : A -> Mem.M B)
    (Q : outcome B -> Mem.heap -> Prop)
    (h : Mem.heap) :
  wp m (fun r h' =>
          match r with
          | Returns a => wp (k a) Q h'
          | Panics msg => Q (Panics msg) h'
          end) h ->
  wp (Mem.bind m k) Q h.
Proof.
  unfold wp, Mem.bind. destruct (m h) as [[a|msg] h']; cbn [fst snd]; trivial.
Qed.

Lemma wp_new (o : Mem.object) (Q : outcome Mem.loc -> Mem.heap -> Prop)
    (h : Mem.heap) :
  (forall l, h !! l = None -> Q (Returns l) (<[l := o]> h)) ->
  wp (Mem.new o) Q h.
Proof.
  intros HQ. unfold wp, Mem.new. cbn [fst snd]. apply HQ.
  apply (not_elem_of_dom (D := gset positive)), is_fresh.
Qed.

Lemma wp_store (z : Mem.loc) (o : Mem.object)
    (Q : outcome unit -> Mem.heap -> Prop) (h : Mem.heap) :
  Q (Returns tt) (<[z := o]> h) -> wp (Mem.store z o) Q h.
Proof. trivial. Qed.

Lemma wp_load_Int (x : Mem.loc) (v : Z) (Q : outcome Z -> Mem.heap -> Prop)
    (h : Mem.heap) :
  h !! x = Some (Mem.Int v) -> Q (Returns v) h -> wp (Mem.load_Int x) Q h.
Proof. intros Hx HQ. unfold wp, Mem.load_Int. now rewrite Hx. Qed.

Lemma wp_load_Float (x : Mem.loc) (p : Z) (v : big.Float)
    (Q : outcome (Z * big.Float) -> Mem.heap -> Prop) (h : Mem.heap) :
  h !! x = Some (Mem.Float p v) -> Q (Returns (p, v)) h ->
  wp (Mem.load_Float x) Q h.
Proof. intros Hx HQ. unfold wp, Mem.load_Float. now rewrite Hx. Qed.

Lemma wp_load_Opts (x : Mem.loc) (o : Mem.PaysEnoughOpts)
    (Q : outcome Mem.PaysEnoughOpts -> Mem.heap -> Prop) (h : Mem.heap) :
  h !! x = Some (Mem.Opts o) -> Q (Returns o) h -> wp (Mem.load_Opts x) Q h.
Proof. intros Hx HQ. unfold wp, Mem.load_Opts. now rewrite Hx. Qed.

Lemma wp_Int_Uint64 (x : Mem.loc) (v : Z) (Q : outcome Z -> Mem.heap -> Prop)
    (h : Mem.heap) :
  h !! x = Some (Mem.Int v) -> Q (Returns (big.Uint64 v)) h ->
  wp (Mem.Int_Uint64 x) Q h.
Proof.
  intros Hx HQ. unfold Mem.Int_Uint64.
  apply wp_bind, (wp_load_Int x v); [exact Hx|]. now apply wp_ret.
Qed.

Lemma wp_Int_Cmp (x y : Mem.loc) (a b : Z) (Q : outcome Z -> Mem.heap -> Prop)
    (h : Mem.heap) :
  h !! x = Some (Mem.Int a) -> h !! y = Some (Mem.Int b) ->
  Q (Returns (big.Cmp a b)) h -> wp (Mem.Int_Cmp x y) Q h.
Proof.
  intros Hx Hy HQ. unfold Mem.Int_Cmp.
  apply wp_bind, (wp_load_Int x a); [exact Hx|].
  apply wp_bind, (wp_load_Int y b); [exact Hy|]. now apply wp_ret.
Qed.

Lemma wp_Int_Set (z x : Mem.loc) (v w : Z)
    (Q : outcome Mem.loc -> Mem.heap -> Prop) (h : Mem.heap) :
  h !! x = Some (Mem.Int v) -> h !! z = Some (Mem.Int w) ->
  Q (Returns z) (<[z := Mem.Int v]> h) -> wp (Mem.Int_Set z x) Q h.
Proof.
  intros Hx Hz HQ. unfold Mem.Int_Set.
  apply wp_bind, (wp_load_Int x v); [exact Hx|].
  apply wp_bind, (wp_load_Int z w); [exact Hz|].
  apply wp_bind, wp_store. now apply wp_ret.
Qed.

Lemma wp_Int_SetUint64 (z : Mem.loc) (x w : Z)
    (Q : outcome Mem.loc -> Mem.heap -> Prop)
    (h : Mem.heap) :
  h !! z = Some (Mem.Int w) ->
  Q (Returns z) (<[z := Mem.Int x]> h) -> wp (Mem.Int_SetUint64 z x) Q h.
Proof.
  intros Hz HQ. unfold Mem.Int_SetUint64.
  apply wp_bind, (wp_load_Int z w); [exact Hz|].
  apply wp_bind, wp_store. now apply wp_ret.
Qed.

Lemma wp_Int_Sub (z x y : Mem.loc) (a b w : Z)
    (Q : outcome Mem.loc -> Mem.heap -> Prop)
    (h : Mem.heap) :
  h !! x = Some (Mem.Int a) -> h !! y = Some (Mem.Int b) ->
  h !! z = Some (Mem.Int w) ->
  Q (Returns z) (<[z := Mem.Int (a - b)]> h) -> wp (Mem.Int_Sub z x y) Q h.
Proof.
  intros Hx Hy Hz HQ. unfold Mem.Int_Sub.
  apply wp_bind, (wp_load_Int x a); [exact Hx|].
  apply wp_bind, (wp_load_Int y b); [exact Hy|].
  apply wp_bind, (wp_load_Int z w); [exact Hz|].
  apply wp_bind, wp_store. now apply wp_ret.
Qed.

(** On a fresh [big.Float], [SetUint64] stores its argument exactly. *)
Lemma wp_Float_SetUint64_fresh (z : Mem.loc) (x : Z)
    (Q : outcome Mem.loc -> Mem.heap -> Prop)
    (h : Mem.heap) :
  h !! z = Some (Mem.Float 0 (big.zero false)) -> 0 <= x < 2 ^ 64 ->
  Q (Returns z) (<[z := Mem.Float 64 (big.SetUint64 x)]> h) ->
  wp (Mem.Float_SetUint64 z x) Q h.
Proof.
  intros Hz Hx HQ. unfold Mem.Float_SetUint64.
  apply wp_bind, (wp_load_Float z 0 (big.zero false)); [exact Hz|].
  cbn [fst]. change (0 =? 0) with true. cbv iota.
  rewrite round_exact.
  - apply wp_bind, wp_store. now apply wp_ret.
  - destruct (Z.eq_dec x 0) as [->|Hnz]; [cbn; lia|].
    assert (Z.log2 x < 64) by (apply Z.log2_lt_pow2; lia). lia.
Qed.

Lemma wp_Float_Mul (z y : Mem.loc) (vz vy : big.Float) (py : Z)
    (Q : outcome Mem.loc -> Mem.heap -> Prop) (h : Mem.heap) :
  h !! z = Some (Mem.Float 64 vz) -> h !! y = Some (Mem.Float py vy) ->
  match big.Mul 64 vz vy with
  | Returns v => Q (Returns z) (<[z := Mem.Float 64 v]> h)
  | Panics msg => Q (Panics msg) (<[z := Mem.Float 64 (big.zero false)]> h)
  end ->
  wp (Mem.Float_Mul z z y) Q h.
Proof.
  intros Hz Hy HQ. unfold Mem.Float_Mul.
  apply wp_bind, (wp_load_Float z 64 vz); [exact Hz|].
  apply wp_bind, (wp_load_Float z 64 vz); [exact Hz|].
  apply wp_bind, (wp_load_Float y py vy); [exact Hy|].
  cbn [fst snd]. change (64 =? 0) with false. cbv iota.
  destruct (big.Mul 64 vz vy) as [v|msg].
  - apply wp_bind, wp_store. now apply wp_ret.
  - apply wp_bind, wp_store. exact HQ.
Qed.

Lemma wp_Float_Float64 (x : Mem.loc) (p : Z) (v : big.Float)
    (Q : outcome float64 -> Mem.heap -> Prop) (h : Mem.heap) :
  h !! x = Some (Mem.Float p v) ->
  Q (Returns (big.Float64 v)) h -> wp (Mem.Float_Float64 x) Q h.
Proof.
  intros Hx HQ. unfold Mem.Float_Float64.
  apply wp_bind, (wp_load_Float x p v); [exact Hx|]. now apply wp_ret.
Qed.

(** Stores that extend [h] by objects at locations [h] does not hold. *)
Ltac solve_extends :=
  repeat (apply insert_subseteq_r; [assumption|]);
  first [reflexivity|assumption].

Lemma lookup_insert_fresh (h : Mem.heap) (l x : Mem.loc) (o ox : Mem.object) :
  h !! l = None -> h !! x = Some ox -> <[l := o]> h !! x = Some ox.
Proof.
  intros Hl Hx. rewrite lookup_insert_ne; [exact Hx|]. intros ->. congruence.
Qed.

Variable oor : float64 -> Z.

Lemma wp_mulByFloat (num float : Mem.loc) (n p : Z) (t : big.Float)
    (Q : outcome Mem.loc -> Mem.heap -> Prop) (h : Mem.heap) :
  h !! num = Some (Mem.Int n) -> h !! float = Some (Mem.Float p t) ->
  (forall h', h ⊆ h' ->
     match mulByFloat oor n t with
     | Returns r => forall l, h' !! l = Some (Mem.Int r) -> Q (Returns l) h'
     | Panics msg => Q (Panics msg) h'
     end) ->
  wp (Mem.mulByFloat oor num float) Q h.
Proof.
  intros Hnum Hfloat HQ. unfold Mem.mulByFloat.
  apply wp_bind, (wp_Int_Uint64 num n); [exact Hnum|].
  apply wp_bind, wp_new. intros z Hz.
  apply wp_bind, wp_Float_SetUint64_fresh;
    [apply lookup_insert_eq|apply wrap64_range|].
  rewrite insert_insert_eq.
  apply wp_bind, (wp_Float_Mul z float (big.SetUint64 (big.Uint64 n)) t p);
    [apply lookup_insert_eq|now apply lookup_insert_fresh|].
  rewrite !insert_insert_eq.
  unfold mulByFloat in HQ.
  destruct (big.Mul 64 (big.SetUint64 (big.Uint64 n)) t) as [product|msg].
  - apply wp_bind, (wp_Float_Float64 z 64 product); [apply lookup_insert_eq|].
    apply wp_bind, wp_new. intros z' Hz'.
    apply (wp_Int_SetUint64 z' _ 0); [apply lookup_insert_eq|].
    rewrite insert_insert_eq.
    assert (h !! z' = None) as Hz'0.
    { eapply lookup_weaken_None; [exact Hz'|]. solve_extends. }
    apply HQ; [solve_extends|apply lookup_insert_eq].
  - apply HQ. solve_extends.
Qed.

Lemma value_of_Int_Some (h : Mem.heap) (l : Mem.loc) (v : option Z) :
  Mem.value_of_Int h (Some l) = Some v ->
  exists z, h !! l = Some (Mem.Int z) /\ v = Some z.
Proof.
  cbn. destruct (h !! l) as [[z|prec f|o]|]; try discriminate.
  intros [= <-]. now exists z.
Qed.

Lemma value_of_Float_Some (h : Mem.heap) (l : Mem.loc) (v : option big.Float) :
  Mem.value_of_Float h (Some l) = Some v ->
  exists p f, h !! l = Some (Mem.Float p f) /\ v = Some f.
Proof.
  cbn. destruct (h !! l) as [[z|prec f|o]|]; try discriminate.
  intros [= <-]. now exists prec, f.
Qed.

(** What [PaysEnough] does once the floor is known, on values. *)
Lemma PaysEnough_after_floor (req : PaysEnoughOpts) (u e : Z) :
  UserFee req = Some u -> ExpectedFee req = Some e ->
  PaysEnough oor req =
  match fee_floor oor e (ThresholdDown req) with
  | Panics msg => Panics msg
  | Returns fee =>
      if big.Cmp u fee =? -1 then Returns (Some ErrFeeTooLow)
      else
        match ThresholdUp req with
        | Some thresholdUp =>
            match mulByFloat oor e thresholdUp with
            | Panics msg => Panics msg
            | Returns threshold =>
                if big.Cmp (u - e) threshold =? 1
                then Returns (Some ErrFeeTooHigh)
                else Returns None
            end
        | None => Returns None
        end
  end.
Proof. intros Hu He. unfold PaysEnough, fee_floor. now rewrite Hu, He. Qed.

Lemma wp_PaysEnough (opts : Mem.loc) (req : PaysEnoughOpts) (h : Mem.heap) :
  Mem.request_at h opts = Some req ->
  wp (Mem.PaysEnough oor opts) (fun r _ => r = PaysEnough oor req) h.
Proof.
  unfold Mem.request_at.
  destruct (h !! opts) as [[v|prec v|o]|] eqn:Hopts; try discriminate.
  destruct (Mem.value_of_Int h (Mem.UserFee o)) as [u|] eqn:Hu; [|discriminate].
  destruct (Mem.value_of_Int h (Mem.ExpectedFee o)) as [e|] eqn:He;
    [|discriminate].
  destruct (Mem.value_of_Float h (Mem.ThresholdUp o)) as [up|] eqn:Hup;
    [|discriminate].
  destruct (Mem.value_of_Float h (Mem.ThresholdDown o)) as [down|] eqn:Hdown;
    [|discriminate].
  intros [= <-].
  unfold Mem.PaysEnough.
  apply wp_bind, (wp_load_Opts opts o); [exact Hopts|].
  destruct (Mem.UserFee o) as [userFee|].
  2:{ injection Hu as <-. now apply wp_ret. }
  apply value_of_Int_Some in Hu as (vu & HuserFee & ->).
  destruct (Mem.ExpectedFee o) as [expectedFee|].
  2:{ injection He as <-. now apply wp_ret. }
  apply value_of_Int_Some in He as (ve & HexpectedFee & ->).
  rewrite (PaysEnough_after_floor
             (Mem.Build_request (Some vu) (Some ve) up down) vu ve
             eq_refl eq_refl).
  cbn [ThresholdDown ThresholdUp].
  apply wp_bind, wp_new. intros z Hz.
  apply wp_bind, (wp_Int_Set z expectedFee ve 0);
    [now apply lookup_insert_fresh|apply lookup_insert_eq|].
  rewrite insert_insert_eq.
  (* the steps after the floor, from any store that extends [h] *)
  apply wp_bind.
  lazymatch goal with
  | |- wp _ (fun r h' => match r with
                         | Returns a => wp (@?k a) ?Q h'
                         | Panics msg => _
                         end) _ =>
      assert (forall fee floor hc,
                h ⊆ hc -> hc !! fee = Some (Mem.Int floor) ->
                fee_floor oor ve down = Returns floor ->
                wp (k fee) Q hc) as Hrest
  end.
  { intros fee floor hc Hsub Hfee ->. cbv beta.
    apply wp_bind, (wp_Int_Cmp userFee fee vu floor);
      [exact (lookup_weaken _ _ _ _ HuserFee Hsub)|exact Hfee|].
    destruct (big.Cmp vu floor =? -1); [now apply wp_ret|].
    destruct (Mem.ThresholdUp o) as [thresholdUp|].
    2:{ injection Hup as <-. now apply wp_ret. }
    apply value_of_Float_Some in Hup as (pu & tu & HthresholdUp & ->).
    apply wp_bind, wp_new. intros z' Hz'.
    assert (h !! z' = None) as Hz'0
      by (eapply lookup_weaken_None; [exact Hz'|exact Hsub]).
    apply wp_bind, (wp_Int_Sub z' userFee expectedFee vu ve 0).
    { apply lookup_insert_fresh; [exact Hz'|].
      exact (lookup_weaken _ _ _ _ HuserFee Hsub). }
    { apply lookup_insert_fresh; [exact Hz'|].
      exact (lookup_weaken _ _ _ _ HexpectedFee Hsub). }
    { apply lookup_insert_eq. }
    rewrite insert_insert_eq.
    apply wp_bind, (wp_mulByFloat expectedFee thresholdUp ve pu tu).
    { apply lookup_insert_fresh; [exact Hz'|].
      exact (lookup_weaken _ _ _ _ HexpectedFee Hsub). }
    { apply lookup_insert_fresh; [exact Hz'|].
      exact (lookup_weaken _ _ _ _ HthresholdUp Hsub). }
    intros h'' Hsub''.
    destruct (mulByFloat oor ve tu) as [threshold|msg]; [|reflexivity].
    intros l Hl.
    apply wp_bind, (wp_Int_Cmp z' l (vu - ve) threshold).
    { eapply lookup_weaken; [|exact Hsub'']. apply lookup_insert_eq. }
    { exact Hl. }
    destruct (big.Cmp (vu - ve) threshold =? 1); now apply wp_ret. }
  destruct (Mem.ThresholdDown o) as [thresholdDown|].
  - apply value_of_Float_Some in Hdown as (pd & td & HthresholdDown & ->).
    apply (wp_mulByFloat z thresholdDown ve pd td);
      [apply lookup_insert_eq|now apply lookup_insert_fresh|].
    intros h' Hsub'. cbn [fee_floor] in *.
    destruct (mulByFloat oor ve td) as [floor|msg] eqn:Hmul; [|reflexivity].
    intros l Hl. apply (Hrest l floor h'); [|exact Hl|reflexivity].
    etransitivity; [|exact Hsub']. solve_extends.
  - injection Hdown as <-. apply wp_ret. cbn [fee_floor] in *.
    apply (Hrest z ve); [solve_extends|apply lookup_insert_eq|reflexivity].
Qed.

(** The call on pointers returns (or panics) as [PaysEnough] on the values
    the pointers lead to. *)
Lemma PaysEnough_refines (opts : Mem.loc) (req : PaysEnoughOpts) (h : Mem.heap)
    :
  Mem.request_at h opts = Some req ->
  fst (Mem.PaysEnough oor opts h) = PaysEnough oor req.
Proof. intros Hreq. exact (wp_PaysEnough opts req h Hreq). Qed.

End Refinement.

(* ===================================================================== *)
(** * Further properties *)
(* ===================================================================== *)

(** ** Byte cost model: counting, reordering, concatenation, bounds *)

Lemma zeroCount_Permutation (a b : list byte) :
  Permutation a b -> zeroCount a = zeroCount b.
Proof.
  induction 1 as [|x a b _ IH|x y a|a b c _ IHab _ IHbc]; cbn [zeroCount].
  - reflexivity.
  - now rewrite IH.
  - lia.
  - congruence.
Qed.

Lemma nonZeroCount_Permutation (a b : list byte) :
  Permutation a b -> nonZeroCount a = nonZeroCount b.
Proof.
  induction 1 as [|x a b _ IH|x y a|a b c _ IHab _ IHbc]; cbn [nonZeroCount].
  - reflexivity.
  - now rewrite IH.
  - lia.
  - congruence.
Qed.

(** X1: While the slice is shorter than 2^64 bytes, the two counters
    [zeroesAndOnes] returns are the number of zero bytes and the number of
    non-zero bytes, and they add up to the length of the slice. *)
Theorem zeroesAndOnes_partition (data : list byte) :
  Z.of_nat (length data) < 2 ^ 64 ->
  zeroesAndOnes data = (zeroCount data, nonZeroCount data) /\
  fst (zeroesAndOnes data) + snd (zeroesAndOnes data) = Z.of_nat (length data) /\
  0 <= fst (zeroesAndOnes data) <= Z.of_nat (length data) /\
  0 <= snd (zeroesAndOnes data) <= Z.of_nat (length data).
Proof.
  intros Hlen. rewrite zeroesAndOnes_spec.
  pose proof (zeroCount_nonneg data). pose proof (nonZeroCount_nonneg data).
  pose proof (count_length data).
  rewrite !wrap64_small by lia. cbn [fst snd].
  repeat split; lia.
Qed.

Lemma zeroesAndOnes_partition_witness :
  zeroesAndOnes [x00; x66; x00; xff; x01] = (2, 3).
Proof.
  assert (Z.of_nat (length [x00; x66; x00; xff; x01]) < 2 ^ 64) as Hlen
    by reflexivity.
  exact (proj1 (zeroesAndOnes_partition [x00; x66; x00; xff; x01] Hlen)).
Defined.

(** X2: The gas estimate and the fee depend on the bytes only through how many
    are zero and how many are not: reordering the bytes changes neither. *)
Theorem L1_cost_of_permutation (a b : list byte)
    (overhead l1GasPrice scalar : Z) :
  Permutation a b ->
  zeroesAndOnes a = zeroesAndOnes b /\
  CalculateL1GasUsed a overhead = CalculateL1GasUsed b overhead /\
  CalculateL1Fee a overhead l1GasPrice scalar =
    CalculateL1Fee b overhead l1GasPrice scalar.
Proof.
  intros Hperm.
  assert (zeroesAndOnes a = zeroesAndOnes b) as Hcount.
  { rewrite !zeroesAndOnes_spec.
    now rewrite (zeroCount_Permutation a b Hperm),
                (nonZeroCount_Permutation a b Hperm). }
  split; [exact Hcount|].
  unfold CalculateL1Fee, CalculateL1GasUsed. now rewrite Hcount.
Qed.

Lemma L1_cost_of_permutation_witness :
  CalculateL1GasUsed [x00; x01; x02] 5 = CalculateL1GasUsed [x02; x00; x01] 5.
Proof.
  assert (Permutation [x00; x01; x02] [x02; x00; x01]) as Hperm.
  { apply Permutation_sym.
    apply (Permutation_cons_app [x00; x01] [] x02). reflexivity. }
  exact (proj1 (proj2 (L1_cost_of_permutation _ _ 5 0 0 Hperm))).
Defined.

(** X3: The gas estimate of a concatenation is the sum of the estimates of the
    parts, the overhead counted once, while the whole is shorter than 2^60
    bytes; at any length the sum holds modulo 2^64 for the byte cost. *)
Theorem CalculateL1GasUsed_app (a b : list byte) (overhead : Z) :
  CalculateL1GasUsed (a ++ b) overhead - overhead =
    wrap64 (CalculateL1GasUsed a 0 + CalculateL1GasUsed b 0) /\
  (Z.of_nat (length a) + Z.of_nat (length b) < 2 ^ 60 ->
   CalculateL1GasUsed (a ++ b) overhead =
     CalculateL1GasUsed a overhead + CalculateL1GasUsed b 0).
Proof.
  split.
  - rewrite !CalculateL1GasUsed_modular, zeroCount_app, nonZeroCount_app.
    rewrite !Z.add_0_r, wrap64_add_l, wrap64_add_r.
    replace (4 * (zeroCount a + zeroCount b) +
             16 * (nonZeroCount a + nonZeroCount b))
      with (4 * zeroCount a + 16 * nonZeroCount a +
            (4 * zeroCount b + 16 * nonZeroCount b)) by lia.
    lia.
  - intros Hlen.
    assert (Z.of_nat (length (a ++ b)) < 2 ^ 60) as Hab
      by (rewrite length_app, Nat2Z.inj_add; lia).
    pose proof (cost_bound_of_length _ Hab).
    pose proof (cost_bound_of_length a ltac:(lia)).
    pose proof (cost_bound_of_length b ltac:(lia)).
    rewrite !CalculateL1GasUsed_no_wrap by lia.
    rewrite zeroCount_app, nonZeroCount_app. lia.
Qed.

Lemma CalculateL1GasUsed_app_witness :
  CalculateL1GasUsed ([x00; x01] ++ [x02]) 7 =
  CalculateL1GasUsed [x00; x01] 7 + CalculateL1GasUsed [x02] 0.
Proof.
  apply (proj2 (CalculateL1GasUsed_app [x00; x01] [x02] 7)). reflexivity.
Defined.

(** X4: Below 2^60 bytes the gas estimate lies between 4 and 16 units per byte
    above the overhead; it is the overhead itself exactly for the empty
    slice. *)
Theorem CalculateL1GasUsed_bounds (data : list byte) (overhead : Z) :
  Z.of_nat (length data) < 2 ^ 60 ->
  overhead + 4 * Z.of_nat (length data) <= CalculateL1GasUsed data overhead /\
  CalculateL1GasUsed data overhead <= overhead + 16 * Z.of_nat (length data) /\
  (CalculateL1GasUsed data overhead = overhead <-> data = []).
Proof.
  intros Hlen. pose proof (cost_bound_of_length data Hlen).
  rewrite CalculateL1GasUsed_no_wrap by lia.
  pose proof (zeroCount_nonneg data). pose proof (nonZeroCount_nonneg data).
  pose proof (count_length data).
  split; [lia|]. split; [lia|].
  split.
  - intros Heq. destruct data as [|b rest]; [reflexivity|].
    cbn [length] in *. lia.
  - intros ->. reflexivity.
Qed.

Lemma CalculateL1GasUsed_bounds_witness :
  2750 + 4 * 3 <= CalculateL1GasUsed [x00; x01; x00] 2750 /\
  CalculateL1GasUsed [x00; x01; x00] 2750 <= 2750 + 16 * 3.
Proof.
  assert (Z.of_nat (length [x00; x01; x00]) < 2 ^ 60) as Hlen by reflexivity.
  pose proof (CalculateL1GasUsed_bounds [x00; x01; x00] 2750 Hlen) as H.
  exact (conj (proj1 H) (proj1 (proj2 H))).
Defined.

(** ** L1 fee calculator: linearity and sign *)

Lemma CalculateL1GasUsed_lower (data : list byte) (overhead : Z) :
  overhead <= CalculateL1GasUsed data overhead.
Proof.
  rewrite CalculateL1GasUsed_modular.
  pose proof (wrap64_range (4 * zeroCount data + 16 * nonZeroCount data)). lia.
Qed.

(** X5: The L1 fee is additive and homogeneous in the gas price and in the
    scalar, each with the other held fixed; it is zero when either is zero;
    and for a non-negative overhead and scalar it is non-negative and grows
    with the gas price. *)
Theorem CalculateL1Fee_linear (data : list byte) (overhead p p' s s' k : Z) :
  CalculateL1Fee data overhead (p + p') s =
    CalculateL1Fee data overhead p s + CalculateL1Fee data overhead p' s /\
  CalculateL1Fee data overhead p (s + s') =
    CalculateL1Fee data overhead p s + CalculateL1Fee data overhead p s' /\
  CalculateL1Fee data overhead (k * p) s = k * CalculateL1Fee data overhead p s /\
  CalculateL1Fee data overhead p (k * s) = k * CalculateL1Fee data overhead p s /\
  CalculateL1Fee data overhead 0 s = 0 /\
  CalculateL1Fee data overhead p 0 = 0 /\
  (0 <= overhead -> 0 <= s -> 0 <= p ->
   0 <= CalculateL1Fee data overhead p s) /\
  (0 <= overhead -> 0 <= s -> p <= p' ->
   CalculateL1Fee data overhead p s <= CalculateL1Fee data overhead p' s).
Proof.
  unfold CalculateL1Fee.
  pose proof (CalculateL1GasUsed_lower data overhead) as Hgas.
  set (gas := CalculateL1GasUsed data overhead) in *.
  repeat (split; [ring|]).
  split.
  - intros Ho Hs Hp. apply Z.mul_nonneg_nonneg; [|exact Hs].
    apply Z.mul_nonneg_nonneg; lia.
  - intros Ho Hs Hp. apply Z.mul_le_mono_nonneg_r; [exact Hs|].
    apply Z.mul_le_mono_nonneg_l; lia.
Qed.

Lemma CalculateL1Fee_linear_witness :
  0 <= CalculateL1Fee [x00; x01] 2750 30000000000 1 /\
  CalculateL1Fee [x00; x01] 2750 30000000000 1 <=
    CalculateL1Fee [x00; x01] 2750 40000000000 1.
Proof.
  pose proof (CalculateL1Fee_linear [x00; x01] 2750 30000000000 40000000000
                1 0 0) as (_ & _ & _ & _ & _ & _ & Hsign & Hmono).
  split.
  - apply Hsign; intros H; discriminate H.
  - apply Hmono; intros H; discriminate H.
Defined.

(** ** Storage words *)

Lemma byte_to_Z_range (b : byte) : 0 <= byte_to_Z b < 256.
Proof.
  unfold byte_to_Z. pose proof (Byte.to_N_bounded b). lia.
Qed.

Lemma Hash_Big_fold_range (h : Hash) :
  forall acc, 0 <= acc ->
    0 <= fold_left (fun acc b => acc * 256 + byte_to_Z b) h acc
      < (acc + 1) * 256 ^ Z.of_nat (length h).
Proof.
  induction h as [|b rest IH]; intros acc Hacc.
  - cbn. lia.
  - cbn [fold_left length]. rewrite Nat2Z.inj_succ, Z.pow_succ_r by lia.
    pose proof (byte_to_Z_range b) as Hb.
    specialize (IH (acc * 256 + byte_to_Z b) ltac:(lia)).
    assert (0 < 256 ^ Z.of_nat (length rest)) by (apply Z.pow_pos_nonneg; lia).
    split; [lia|]. nia.
Qed.

(** X6: A word of [n] bytes reads as an integer in [0, 256^n); so the three
    parameters [ReadGPOStorageSlots] returns from 32-byte words are
    non-negative and fit in 256 bits, whatever the state holds. *)
Theorem ReadGPOStorageSlots_range (L2GasPriceOracleAddress : Address)
    (L1GasPriceSlot OverheadSlot ScalarSlot : Hash) (state : StateDb) :
  (forall h : Hash, 0 <= Hash_Big h < 256 ^ Z.of_nat (length h)) /\
  ((forall a k, length (GetState state a k) = 32%nat) ->
   let '(l1GasPrice, overhead, scalar) :=
     ReadGPOStorageSlots L2GasPriceOracleAddress L1GasPriceSlot OverheadSlot
       ScalarSlot state in
   is_uint256 l1GasPrice /\ is_uint256 overhead /\ is_uint256 scalar).
Proof.
  assert (forall h : Hash, 0 <= Hash_Big h < 256 ^ Z.of_nat (length h)) as Hrange.
  { intros h. pose proof (Hash_Big_fold_range h 0 ltac:(lia)) as H.
    unfold Hash_Big. lia. }
  split; [exact Hrange|].
  intros Hlen. unfold ReadGPOStorageSlots, is_uint256.
  assert (forall a k, 0 <= Hash_Big (GetState state a k) < 2 ^ 256) as Hword.
  { intros a k. pose proof (Hrange (GetState state a k)) as H.
    rewrite Hlen in H. exact H. }
  repeat split; apply Hword.
Qed.

Lemma be_split_length (n : nat) (w : Z) : length (RLP.be_split n w) = n.
Proof.
  revert w. induction n as [|n IH]; intros w; [reflexivity|].
  cbn [RLP.be_split]. rewrite length_app, IH. cbn. lia.
Qed.

Lemma ReadGPOStorageSlots_range_witness :
  is_uint256 30000000000 /\ is_uint256 2750 /\ is_uint256 1.
Proof.
  assert (forall a k, length (GetState state_default a k) = 32%nat) as Hlen
    by (intros a k; apply be_split_length).
  exact (proj2 (ReadGPOStorageSlots_range predeploy_address slot_l1GasPrice
                  slot_overhead slot_scalar state_default) Hlen).
Defined.

(** ** Transaction encoder and fee aggregator: failures and composition *)

Section AggregatorProperties.

Variable EncodeRLP : Transaction -> result (list byte).
Variable L2GasPriceOracleAddress : Address.
Variables L1GasPriceSlot OverheadSlot ScalarSlot : Hash.

(** X7: [rawTransaction] fails exactly when the serialization fails, with the
    serialization's own error and whatever the padding mode; when the padded
    mode succeeds so does the other, and the padded bytes are the unpadded
    ones and 136 more. *)
Theorem rawTransaction_failure (tx : Transaction) :
  (forall pad err,
     rawTransaction EncodeRLP tx pad = Err err <-> EncodeRLP tx = Err err) /\
  (forall padded,
     rawTransaction EncodeRLP tx true = Ok padded ->
     exists raw,
       rawTransaction EncodeRLP tx false = Ok raw /\
       padded = raw ++ signature_filler /\
       length padded = (length raw + 136)%nat).
Proof.
  unfold rawTransaction. split.
  - intros pad err. destruct (EncodeRLP tx) as [raw|e]; [|tauto].
    destruct pad; split; discriminate.
  - intros padded. destruct (EncodeRLP tx) as [raw|e]; [|discriminate].
    intros [= <-]. exists raw. split; [reflexivity|]. split; [reflexivity|].
    now rewrite length_app.
Qed.

(** X8: [CalculateFee] asks the oracle for the L1 gas price, the overhead and the
    scalar, in that order, and then encodes the transaction; it fails exactly
    when one of these four steps fails, with the error of the first step that
    fails.  The oracle's L2 gas price is never asked for. *)
Theorem CalculateFee_failure (tx : Transaction) (gpo : RollupOracle) :
  (forall err,
     CalculateFee EncodeRLP tx gpo = Err err <->
     SuggestL1GasPrice gpo = Err err \/
     (exists p, SuggestL1GasPrice gpo = Ok p /\ SuggestOverhead gpo = Err err) \/
     (exists p o,
        SuggestL1GasPrice gpo = Ok p /\ SuggestOverhead gpo = Ok o /\
        SuggestScalar gpo = Err err) \/
     (exists p o s,
        SuggestL1GasPrice gpo = Ok p /\ SuggestOverhead gpo = Ok o /\
        SuggestScalar gpo = Ok s /\ EncodeRLP tx = Err err)) /\
  (forall l2,
     CalculateFee EncodeRLP tx
       {| SuggestL1GasPrice := SuggestL1GasPrice gpo;
          SuggestL2GasPrice := l2;
          SuggestOverhead := SuggestOverhead gpo;
          SuggestScalar := SuggestScalar gpo |} =
     CalculateFee EncodeRLP tx gpo).
Proof.
  split; [|reflexivity].
  intros err. unfold CalculateFee, rawTransaction.
  destruct (SuggestL1GasPrice gpo) as [p|e1].
  2:{ split.
      - intros [= ->]. now left.
      - intros [[= ->]|[(p & [=] & _)|[(p & o & [=] & _)|(p & o & s & [=] & _)]]].
        reflexivity. }
  destruct (SuggestOverhead gpo) as [o|e2].
  2:{ split.
      - intros [= ->]. right; left. now exists p.
      - intros [[=]|[(p' & _ & [= ->])|[(p' & o & _ & [=] & _)
                                        |(p' & o & s & _ & [=] & _)]]].
        reflexivity. }
  destruct (SuggestScalar gpo) as [s|e3].
  2:{ split.
      - intros [= ->]. right; right; left. now exists p, o.
      - intros [[=]|[(p' & _ & [=])|[(p' & o' & _ & _ & [= ->])
                                     |(p' & o' & s & _ & _ & [=] & _)]]].
        reflexivity. }
  destruct (EncodeRLP tx) as [raw|e4].
  - split; [discriminate|].
    intros [[=]|[(p' & _ & [=])|[(p' & o' & _ & _ & [=])
                                 |(p' & o' & s' & _ & _ & _ & [=])]]].
  - split.
    + intros [= ->]. right; right; right. now exists p, o, s.
    + intros [[=]|[(p' & _ & [=])|[(p' & o' & _ & _ & [=])
                                   |(p' & o' & s' & _ & _ & _ & [= ->])]]].
      reflexivity.
Qed.

(** X9: End to end, for an encoding shorter than 2^60 bytes:
    [CalculateFee] is
    [(4*zeros + 16*nonzeros + overhead) * l1GasPrice * scalar
     + gasPrice * gasLimit]. *)
Theorem CalculateFee_closed_form (tx : Transaction) (gpo : RollupOracle)
    (l1GasPrice overhead scalar : Z) (raw : list byte) :
  SuggestL1GasPrice gpo = Ok l1GasPrice ->
  SuggestOverhead gpo = Ok overhead ->
  SuggestScalar gpo = Ok scalar ->
  EncodeRLP tx = Ok raw ->
  Z.of_nat (length raw) < 2 ^ 60 ->
  0 <= types.GasLimit tx < 2 ^ 64 ->
  CalculateFee EncodeRLP tx gpo =
  Ok ((4 * zeroCount raw + 16 * nonZeroCount raw + overhead) * l1GasPrice * scalar
      + types.Price tx * types.GasLimit tx).
Proof.
  intros Hp Ho Hs Henc Hlen Hgas.
  rewrite (CalculateFee_ok EncodeRLP tx gpo l1GasPrice overhead scalar raw)
    by assumption.
  pose proof (cost_bound_of_length raw Hlen).
  unfold CalculateL1Fee.
  now rewrite CalculateL1GasUsed_no_wrap, wrap64_small by lia.
Qed.

(** X10: The message path fails exactly when the serialization of the rebuilt
    transaction fails, with that error: reading the state cannot fail.  When
    it succeeds the fee is the L1 message fee plus [gasPrice * gasUsed]. *)
Theorem CalculateMsgFee_failure (msg : Message) (state : StateDb) (gasUsed : Z) :
  (forall err,
     CalculateMsgFee EncodeRLP L2GasPriceOracleAddress L1GasPriceSlot
       OverheadSlot ScalarSlot msg state gasUsed = Err err <->
     EncodeRLP (asTransaction msg) = Err err) /\
  (forall err,
     CalculateL1MsgFee EncodeRLP L2GasPriceOracleAddress L1GasPriceSlot
       OverheadSlot ScalarSlot msg state = Err err <->
     EncodeRLP (asTransaction msg) = Err err) /\
  (forall fee,
     CalculateMsgFee EncodeRLP L2GasPriceOracleAddress L1GasPriceSlot
       OverheadSlot ScalarSlot msg state gasUsed = Ok fee <->
     exists l1Fee,
       CalculateL1MsgFee EncodeRLP L2GasPriceOracleAddress L1GasPriceSlot
         OverheadSlot ScalarSlot msg state = Ok l1Fee /\
       fee = l1Fee + GasPrice msg * gasUsed).
Proof.
  unfold CalculateMsgFee, CalculateL1MsgFee, rawTransaction.
  destruct (ReadGPOStorageSlots _ _ _ _ state) as [[p o] s].
  destruct (EncodeRLP (asTransaction msg)) as [raw|e]; cbv beta iota zeta.
  - split; [intros err; split; discriminate|].
    split; [intros err; split; discriminate|].
    intros fee. split.
    + intros [= <-]. eexists. split; reflexivity.
    + intros (l1 & [= <-] & ->). reflexivity.
  - split; [intros err; split; intros [= ->]; reflexivity|].
    split; [intros err; split; intros [= ->]; reflexivity|].
    intros fee. split; [discriminate|]. intros (l1 & [=] & _).
Qed.

(** X11: The filler adds [136 * 16 * l1GasPrice * scalar] to the L1 fee of the
    unsigned encoding (for an encoding within the range of the byte
    counters). *)
Theorem CalculateL1MsgFee_surcharge (msg : Message) (state : StateDb)
    (l1GasPrice overhead scalar : Z) (raw : list byte) :
  ReadGPOStorageSlots L2GasPriceOracleAddress L1GasPriceSlot OverheadSlot
    ScalarSlot state = (l1GasPrice, overhead, scalar) ->
  EncodeRLP (asTransaction msg) = Ok raw ->
  Z.of_nat (length raw) + 136 < 2 ^ 60 ->
  CalculateL1MsgFee EncodeRLP L2GasPriceOracleAddress L1GasPriceSlot
    OverheadSlot ScalarSlot msg state =
  Ok (CalculateL1Fee raw overhead l1GasPrice scalar
      + 136 * 16 * l1GasPrice * scalar).
Proof.
  intros Hread Henc Hlen.
  rewrite (CalculateL1MsgFee_ok EncodeRLP L2GasPriceOracleAddress
             L1GasPriceSlot OverheadSlot ScalarSlot msg state
             l1GasPrice overhead scalar raw) by assumption.
  unfold CalculateL1Fee. rewrite CalculateL1GasUsed_app_filler by exact Hlen.
  f_equal. ring.
Qed.

(** X12: The message fee reads the message's recipient, value, gas limit, gas
    price, nonce and data, never its sender, and reads the state at the three
    slots of the predeploy address only. *)
Theorem CalculateMsgFee_frame (msg msg' : Message) (state state' : StateDb)
    (gasUsed : Z) :
  To msg' = To msg -> GasPrice msg' = GasPrice msg -> Gas msg' = Gas msg ->
  Value msg' = Value msg -> Nonce msg' = Nonce msg -> Data msg' = Data msg ->
  GetState state' L2GasPriceOracleAddress L1GasPriceSlot =
    GetState state L2GasPriceOracleAddress L1GasPriceSlot ->
  GetState state' L2GasPriceOracleAddress OverheadSlot =
    GetState state L2GasPriceOracleAddress OverheadSlot ->
  GetState state' L2GasPriceOracleAddress ScalarSlot =
    GetState state L2GasPriceOracleAddress ScalarSlot ->
  CalculateMsgFee EncodeRLP L2GasPriceOracleAddress L1GasPriceSlot OverheadSlot
    ScalarSlot msg' state' gasUsed =
  CalculateMsgFee EncodeRLP L2GasPriceOracleAddress L1GasPriceSlot OverheadSlot
    ScalarSlot msg state gasUsed.
Proof.
  intros HTo HPrice HGas HValue HNonce HData Hp Ho Hs.
  assert (asTransaction msg' = asTransaction msg) as Htx.
  { unfold asTransaction. now rewrite HTo, HPrice, HGas, HValue, HNonce, HData. }
  unfold CalculateMsgFee, CalculateL1MsgFee, ReadGPOStorageSlots.
  now rewrite Htx, Hp, Ho, Hs, HPrice.
Qed.

End AggregatorProperties.

Lemma rawTransaction_failure_witness :
  rawTransaction RLP.EncodeRLP (asTransaction msg_negative_price) true =
    Err (Upstream "rlp: cannot encode negative *big.Int") /\
  exists raw padded,
    rawTransaction RLP.EncodeRLP tx_signed true = Ok padded /\
    rawTransaction RLP.EncodeRLP tx_signed false = Ok raw /\
    length padded = (length raw + 136)%nat.
Proof.
  split.
  - apply (proj2 (proj1 (rawTransaction_failure RLP.EncodeRLP
                           (asTransaction msg_negative_price)) _ _)).
    reflexivity.
  - destruct (proj2 (rawTransaction_failure RLP.EncodeRLP tx_signed) _ eq_refl)
      as (raw & Hraw & _ & Hlen).
    exists raw. eexists. split; [reflexivity|]. split; [exact Hraw|exact Hlen].
Defined.

Lemma CalculateFee_failure_witness :
  CalculateFee RLP.EncodeRLP tx_signed gpo_no_overhead =
    Err (Upstream "overhead unavailable").
Proof.
  apply (proj2 (proj1 (CalculateFee_failure RLP.EncodeRLP tx_signed
                         gpo_no_overhead) _)).
  right. left. exists 30000000000. split; reflexivity.
Defined.

Lemma CalculateFee_closed_form_witness :
  CalculateFee RLP.EncodeRLP tx_signed gpo_default =
  Ok ((4 * 4 + 16 * 106 + 2750) * 30000000000 * 1 + 20000000000 * 21000).
Proof.
  assert (0 <= types.GasLimit tx_signed < 2 ^ 64) as Hgas
    by (split; vm_compute; congruence).
  exact (CalculateFee_closed_form RLP.EncodeRLP tx_signed gpo_default
           30000000000 2750 1 _ eq_refl eq_refl eq_refl eq_refl eq_refl Hgas).
Defined.

Lemma CalculateMsgFee_failure_witness :
  CalculateMsgFee RLP.EncodeRLP predeploy_address slot_l1GasPrice
    slot_overhead slot_scalar msg_negative_price state_default 21000 =
    Err (Upstream "rlp: cannot encode negative *big.Int").
Proof.
  apply (proj2 (proj1 (CalculateMsgFee_failure RLP.EncodeRLP predeploy_address
                         slot_l1GasPrice slot_overhead slot_scalar
                         msg_negative_price state_default 21000) _)).
  reflexivity.
Defined.

Lemma CalculateL1MsgFee_surcharge_witness :
  CalculateL1MsgFee RLP.EncodeRLP predeploy_address slot_l1GasPrice
    slot_overhead slot_scalar msg_transfer state_default =
  Ok (103020000000000 + 136 * 16 * 30000000000 * 1).
Proof.
  exact (CalculateL1MsgFee_surcharge RLP.EncodeRLP predeploy_address
           slot_l1GasPrice slot_overhead slot_scalar msg_transfer state_default
           30000000000 2750 1 _ eq_refl eq_refl eq_refl).
Defined.

Lemma CalculateMsgFee_frame_witness :
  CalculateMsgFee RLP.EncodeRLP predeploy_address slot_l1GasPrice
    slot_overhead slot_scalar msg_other_sender state_default 21000 =
  CalculateMsgFee RLP.EncodeRLP predeploy_address slot_l1GasPrice
    slot_overhead slot_scalar msg_transfer state_default 21000.
Proof.
  exact (CalculateMsgFee_frame RLP.EncodeRLP predeploy_address slot_l1GasPrice
           slot_overhead slot_scalar msg_transfer msg_other_sender
           state_default state_default 21000
           eq_refl eq_refl eq_refl eq_refl eq_refl eq_refl
           eq_refl eq_refl eq_refl).
Defined.

(** ** Fee validator: panics, zones of the user fee, the exact fee *)

Section ValidatorZones.

Variable oor : float64 -> Z.



(** X15: For fixed expected fee and thresholds, the user fees split into three
    zones in this order: too low, accepted, too high.  A fee below one that is
    too low is too low, a fee above one that is too high is too high, and a
    fee between two accepted ones is accepted. *)
Theorem PaysEnough_zones (e : Z) (down up : option big.Float) (u u' : Z) :
  u <= u' ->
  (PaysEnough oor (request (Some u') (Some e) down up) =
     Returns (Some ErrFeeTooLow) ->
   PaysEnough oor (request (Some u) (Some e) down up) =
     Returns (Some ErrFeeTooLow)) /\
  (PaysEnough oor (request (Some u) (Some e) down up) =
     Returns (Some ErrFeeTooHigh) ->
   PaysEnough oor (request (Some u') (Some e) down up) =
     Returns (Some ErrFeeTooHigh)) /\
  (forall v,
     u <= v <= u' ->
     PaysEnough oor (request (Some u) (Some e) down up) = Returns None ->
     PaysEnough oor (request (Some u') (Some e) down up) = Returns None ->
     PaysEnough oor (request (Some v) (Some e) down up) = Returns None).
Proof.
  intros Hle.
  assert (forall w,
            PaysEnough oor (request (Some w) (Some e) down up) =
            match fee_floor oor e down with
            | Panics msg => Panics msg
            | Returns floor =>
                if w <? floor then Returns (Some ErrFeeTooLow)
                else
                  match up with
                  | None => Returns None
                  | Some t =>
                      match mulByFloat oor e t with
                      | Panics msg => Panics msg
                      | Returns cap =>
                          if cap <? w - e then Returns (Some ErrFeeTooHigh)
                          else Returns None
                      end
                  end
            end) as Hunfold
    by (intros w;
        exact (PaysEnough_unfold oor (request (Some w) (Some e) down up) w e
                 eq_refl eq_refl)).
  split; [|split].
  - rewrite (Hunfold u), (Hunfold u').
    destruct (fee_floor oor e down) as [floor|msg]; [|trivial].
    destruct (Z.ltb_spec u' floor).
    + destruct (Z.ltb_spec u floor); [trivial|lia].
    + destruct up as [t|]; [|discriminate].
      destruct (mulByFloat oor e t) as [cap|msg]; [|discriminate].
      destruct (cap <? u' - e); discriminate.
  - rewrite (Hunfold u), (Hunfold u').
    destruct (fee_floor oor e down) as [floor|msg]; [|trivial].
    destruct (Z.ltb_spec u floor); [discriminate|].
    destruct (Z.ltb_spec u' floor); [lia|].
    destruct up as [t|]; [|discriminate].
    destruct (mulByFloat oor e t) as [cap|msg]; [|trivial].
    destruct (Z.ltb_spec cap (u - e)); [|discriminate].
    destruct (Z.ltb_spec cap (u' - e)); [trivial|lia].
  - intros v Hv. rewrite (Hunfold u), (Hunfold u'), (Hunfold v).
    destruct (fee_floor oor e down) as [floor|msg]; [|trivial].
    destruct (Z.ltb_spec u floor); [discriminate|].
    destruct (Z.ltb_spec u' floor); [discriminate|].
    destruct (Z.ltb_spec v floor); [lia|].
    destruct up as [t|]; [|trivial].
    destruct (mulByFloat oor e t) as [cap|msg]; [|trivial].
    destruct (Z.ltb_spec cap (u - e)); [discriminate|].
    destruct (Z.ltb_spec cap (u' - e)); [discriminate|].
    destruct (Z.ltb_spec cap (v - e)); [lia|trivial].
Qed.

(** X16: Without a downward threshold, a user fee equal to the expected fee is
    accepted whatever the upward threshold (short of an infinite one): the
    cap on the overpayment is never negative.  Without any threshold the user
    fee is accepted exactly when it is not below the expected fee. *)
Theorem PaysEnough_exact_fee (e : Z) (up : option big.Float) :
  (threshold_is_infinite up = false ->
   PaysEnough oor (request (Some e) (Some e) None up) = Returns None) /\
  (forall u,
     PaysEnough oor (request (Some u) (Some e) None None) = Returns None <->
     e <= u).
Proof.
  split.
  - intros Hup.
    rewrite (PaysEnough_unfold oor (request (Some e) (Some e) None up) e e
               eq_refl eq_refl). cbn.
    rewrite Z.ltb_irrefl.
    destruct up as [t|]; [|reflexivity].
    destruct (mulByFloat_Returns oor e t) as (cap & -> & Hcap); [now left|].
    rewrite Z.sub_diag. destruct (Z.ltb_spec cap 0); [lia|reflexivity].
  - intros u.
    rewrite (PaysEnough_unfold oor (request (Some u) (Some e) None None) u e
               eq_refl eq_refl). cbn.
    destruct (Z.ltb_spec u e); split; (discriminate || lia || reflexivity).
Qed.

End ValidatorZones.


Lemma PaysEnough_zones_witness :
  PaysEnough out_of_range_zero
    (request (Some 9000) (Some 10000) (Some threshold_0_8) (Some threshold_3)) =
    Returns None.
Proof.
  assert (8000 <= 9000 <= 40000) as Hv by (split; intros H; discriminate H).
  assert (8000 <= 40000) as Hle by (intros H; discriminate H).
  exact (proj2 (proj2 (PaysEnough_zones out_of_range_zero 10000
                         (Some threshold_0_8) (Some threshold_3)
                         8000 40000 Hle)) 9000 Hv eq_refl eq_refl).
Defined.

Lemma PaysEnough_exact_fee_witness :
  PaysEnough out_of_range_zero
    (request (Some 10000) (Some 10000) None (Some threshold_1_5)) =
    Returns None.
Proof.
  exact (proj1 (PaysEnough_exact_fee out_of_range_zero 10000
                  (Some threshold_1_5)) eq_refl).
Defined.

(** X17: Every case of the table of [TestPaysEnough] passes, whatever an
    implementation picks for out-of-range conversions: the call returns and
    [errors.Is] matches the expected error (or both are nil). *)
Theorem TestPaysEnough_passes (oor : float64 -> Z) :
  TestPaysEnough oor = true /\
  Forall (fun named => test_passes oor (snd named) = true) tests.
Proof.
  split; [reflexivity|].
  unfold tests. repeat (constructor; [reflexivity|]). constructor.
Qed.

(** ** Fee validator on pointers: values only, fresh results *)

(** X18: The outcome of [PaysEnough] depends on the values its pointers lead to
    and on nothing else: not on where the objects are, not on whether two
    pointers share an object, not on the precision recorded in a threshold.
    It is the outcome of the validator on values. *)
Theorem PaysEnough_values_only (oor : float64 -> Z) (opts opts' : Mem.loc)
    (h h' : Mem.heap) (req : PaysEnoughOpts) :
  Mem.request_at h opts = Some req ->
  Mem.request_at h' opts' = Some req ->
  fst (Mem.PaysEnough oor opts h) = PaysEnough oor req /\
  fst (Mem.PaysEnough oor opts' h') = fst (Mem.PaysEnough oor opts h).
Proof.
  intros Hreq Hreq'.
  rewrite (PaysEnough_refines oor opts req h Hreq).
  rewrite (PaysEnough_refines oor opts' req h' Hreq').
  split; reflexivity.
Qed.

Lemma PaysEnough_values_only_witness :
  fst (Mem.PaysEnough out_of_range_zero 7%positive store_separate) =
  fst (Mem.PaysEnough out_of_range_zero 1%positive store_aliased).
Proof.
  assert (Mem.request_at store_aliased 1%positive =
          Some (request (Some 1) (Some 1) None (Some threshold_1_5))) as Ha
    by (vm_compute; reflexivity).
  assert (Mem.request_at store_separate 7%positive =
          Some (request (Some 1) (Some 1) None (Some threshold_1_5))) as Hs
    by (vm_compute; reflexivity).
  exact (proj2 (PaysEnough_values_only out_of_range_zero 1%positive 7%positive
                  store_aliased store_separate _ Ha Hs)).
Defined.

(** X19: [mulByFloat] returns a [big.Int] that it has allocated: the pointer it
    returns is none of the objects of the caller's store, the object holds
    the threshold product, and the operands are as they were. *)
Theorem mulByFloat_fresh_result (oor : float64 -> Z) (num float : Mem.loc)
    (n p r : Z) (t : big.Float) (h : Mem.heap) :
  h !! num = Some (Mem.Int n) ->
  h !! float = Some (Mem.Float p t) ->
  mulByFloat oor n t = Returns r ->
  exists l,
    fst (Mem.mulByFloat oor num float h) = Returns l /\
    h !! l = None /\
    snd (Mem.mulByFloat oor num float h) !! l = Some (Mem.Int r) /\
    snd (Mem.mulByFloat oor num float h) !! num = Some (Mem.Int n) /\
    snd (Mem.mulByFloat oor num float h) !! float = Some (Mem.Float p t).
Proof.
  intros Hnum Hfloat Hmul.
  pose proof (wp_mulByFloat oor num float n p t
                (fun out h' =>
                   exists l, out = Returns l /\ h' !! l = Some (Mem.Int r) /\
                             h ⊆ h')
                h Hnum Hfloat) as Hwp.
  destruct Hwp as (l & Hl & Hval & Hsub).
  { intros h' Hsub. rewrite Hmul. intros l Hl. now exists l. }
  exists l. split; [exact Hl|].
  pose proof (frames_mulByFloat h oor num float h) as [_ Hfresh];
    [reflexivity|].
  split; [exact (Hfresh l Hl)|].
  split; [exact Hval|].
  split; eapply lookup_weaken; eassumption.
Qed.

Lemma mulByFloat_fresh_result_witness :
  exists l,
    fst (Mem.mulByFloat out_of_range_zero 3%positive 4%positive store_example) =
      Returns l /\
    store_example !! l = None.
Proof.
  destruct (mulByFloat_fresh_result out_of_range_zero 3%positive 4%positive
              2 53 1 threshold_0_5 store_example)
    as (l & Hl & Hfresh & _).
  - vm_compute. reflexivity.
  - vm_compute. reflexivity.
  - reflexivity.
  - exists l. split; [exact Hl|exact Hfresh].
Defined.

(** ** The contract: deployment, access control, notifications *)

Section ContractCalls.

Import OracleCalls.

Lemma dispatch_not_owner (sender : Z) (c : call) (s : state) :
  sender <> owner s -> dispatch sender c s = None.
Proof.
  intros Hne. destruct c; cbn; unfold setGasPrice, setL1BaseFee, setOverhead,
    setScalar, onlyOwner; destruct (Z.eqb_spec (owner s) sender); congruence.
Qed.

Lemma dispatch_owner (sender : Z) (c : call) (s s' : state) (events : list event) :
  dispatch sender c s = Some (s', events) ->
  sender = owner s /\ owner s' = owner s.
Proof.
  destruct c; cbn; unfold setGasPrice, setL1BaseFee, setOverhead, setScalar,
    onlyOwner; destruct (Z.eqb_spec (owner s) sender); try discriminate;
    intros [= <- <-]; auto.
Qed.

Lemma fold_transact_log (txs : list (Z * call)) :
  forall s log,
    fold_left transact txs (s, log) =
    (fst (fold_left transact txs (s, [])),
     log ++ snd (fold_left transact txs (s, []))).
Proof.
  induction txs as [|tx txs IH]; intros s log.
  - cbn. now rewrite app_nil_r.
  - cbn [fold_left]. unfold transact at 2 4 6. cbn [fst snd].
    destruct (dispatch (fst tx) (snd tx) s) as [[s' events]|].
    + rewrite (IH s' (log ++ events)), (IH s' ([] ++ events)). cbn [app fst snd].
      now rewrite app_assoc.
    + apply IH.
Qed.

Lemma run_cons (tx : Z * call) (txs : list (Z * call)) (s : state) :
  run (tx :: txs) s =
  match dispatch (fst tx) (snd tx) s with
  | Some (s1, events) => (fst (run txs s1), events ++ snd (run txs s1))
  | None => run txs s
  end.
Proof.
  unfold run. cbn [fold_left]. unfold transact at 2. cbn [fst snd].
  destruct (dispatch (fst tx) (snd tx) s) as [[s1 events]|]; [|reflexivity].
  apply fold_transact_log.
Qed.

(** X20: Calls from accounts other than the owner change nothing: after any trace
    of setter calls none of which the owner sends, the owner and the four
    variables are as before and nothing has been notified. *)
Theorem setters_only_owner (txs : list (Z * call)) (s : state) :
  Forall (fun tx => fst tx <> owner s) txs ->
  run txs s = (s, []).
Proof.
  induction 1 as [|tx txs Hne _ IH]; [reflexivity|].
  rewrite run_cons. now rewrite dispatch_not_owner.
Qed.

Lemma last_update_app (kind : event -> option Z) (log1 log2 : list event)
    (initial : Z) :
  last_update kind (log1 ++ log2) initial =
  last_update kind log2 (last_update kind log1 initial).
Proof. unfold last_update. apply fold_left_app. Qed.

(** X21: The notifications tell the state: after any trace of setter calls, by
    any accounts, the owner is who it was, and each variable holds the value
    of the last notification of its kind, or its old value when there is
    none.  Variables of [uint256] stay so when the arguments are. *)
Theorem setters_notify (txs : list (Z * call)) (s : state) :
  let s' := fst (run txs s) in
  let log := snd (run txs s) in
  owner s' = owner s /\
  gasPrice (vars s') = last_update is_GasPriceUpdated log (gasPrice (vars s)) /\
  l1BaseFee (vars s') =
    last_update is_L1BaseFeeUpdated log (l1BaseFee (vars s)) /\
  overhead (vars s') = last_update is_OverheadUpdated log (overhead (vars s)) /\
  scalar (vars s') = last_update is_ScalarUpdated log (scalar (vars s)) /\
  (wf (vars s) -> Forall (fun tx => is_uint256 (argument (snd tx))) txs ->
   wf (vars s')).
Proof.
  revert s. induction txs as [|[sender c] txs IH]; intros s.
  - cbn. do 5 (split; [reflexivity|]). intros Hwf _. exact Hwf.
  - cbv zeta. rewrite run_cons. cbn [fst snd].
    destruct (dispatch sender c s) as [[s1 events]|] eqn:Hd; cbn [fst snd].
    + specialize (IH s1). cbv zeta in IH.
      destruct IH as (Ho & Hg & Hb & Hov & Hsc & Hwf).
      apply dispatch_owner in Hd as Hown. destruct Hown as [_ Hown].
      rewrite !last_update_app.
      assert (gasPrice (vars s1) =
                last_update is_GasPriceUpdated events (gasPrice (vars s)) /\
              l1BaseFee (vars s1) =
                last_update is_L1BaseFeeUpdated events (l1BaseFee (vars s)) /\
              overhead (vars s1) =
                last_update is_OverheadUpdated events (overhead (vars s)) /\
              scalar (vars s1) =
                last_update is_ScalarUpdated events (scalar (vars s)) /\
              (wf (vars s) -> is_uint256 (argument c) -> wf (vars s1)))
        as (Hg1 & Hb1 & Hov1 & Hsc1 & Hwf1).
      { destruct c; cbn in Hd;
          unfold setGasPrice, setL1BaseFee, setOverhead, setScalar, onlyOwner in Hd;
          destruct (owner s =? sender); try discriminate;
          injection Hd as <- <-; cbn; unfold wf; cbn; intuition. }
      rewrite <- Hg1, <- Hb1, <- Hov1, <- Hsc1.
      split; [congruence|]. repeat (split; [assumption|]).
      intros Hwfs Hargs. inversion Hargs as [|tx txs' Harg Hrest]; subst.
      apply Hwf; [now apply Hwf1|exact Hrest].
    + specialize (IH s). cbv zeta in IH.
      destruct IH as (Ho & Hg & Hb & Hov & Hsc & Hwf).
      repeat (split; [assumption|]).
      intros Hwfs Hargs. inversion Hargs; subst. now apply Hwf.
Qed.

(** X22: Two setter calls that write different variables commute, whoever sends
    them; of two calls by the owner that write the same variable the second
    prevails. *)
Theorem setters_commute (s : state) (a1 a2 : Z) (c1 c2 : call) :
  (same_variable c1 c2 = false ->
   fst (run [(a1, c1); (a2, c2)] s) = fst (run [(a2, c2); (a1, c1)] s)) /\
  (same_variable c1 c2 = true -> a1 = owner s -> a2 = owner s ->
   fst (run [(a1, c1); (a2, c2)] s) = fst (run [(a2, c2)] s)).
Proof.
  unfold run, transact. cbn [fold_left fst snd].
  split.
  - intros Hdiff.
    destruct c1, c2; try discriminate Hdiff; cbn;
      unfold setGasPrice, setL1BaseFee, setOverhead, setScalar, onlyOwner;
      destruct (owner s =? a1) eqn:H1; destruct (owner s =? a2) eqn:H2;
      cbn [fst snd owner vars]; rewrite ?H1, ?H2; reflexivity.
  - intros Hsame -> ->.
    destruct c1, c2; try discriminate Hsame; cbn;
      unfold setGasPrice, setL1BaseFee, setOverhead, setScalar, onlyOwner;
      rewrite Z.eqb_refl; cbn [fst snd owner vars]; rewrite Z.eqb_refl;
      reflexivity.
Qed.

(** X23: A deployment with the zero address as owner reverts.  Any other
    deployment starts with the given owner, variables of [uint256], an
    overhead of 2750 in the gas estimate, and an L1 fee of 0 for every data
    (the base fee is 0 until the owner sets it). *)
Theorem constructor_initial (_owner : Z) :
  constructor 0 = None /\
  (_owner <> 0 ->
   exists s,
     constructor _owner = Some s /\ owner s = _owner /\ wf (vars s) /\
     forall data,
       Z.of_nat (length data) < 2 ^ 60 ->
       getL1GasUsed (vars s) data =
         Some (4 * zeroCount data + 16 * nonZeroCount data + 2750) /\
       getL1Fee (vars s) data = Some 0).
Proof.
  split; [reflexivity|].
  intros Hnz. unfold constructor.
  destruct (Z.eqb_spec _owner 0) as [|_]; [contradiction|].
  eexists. split; [reflexivity|]. split; [reflexivity|].
  assert (wf {| gasPrice := 0; l1BaseFee := 0; overhead := 2750; scalar := 1 |})
    as Hwf by (repeat split; vm_compute; congruence).
  split; [exact Hwf|].
  intros data Hlen. cbn [vars].
  pose proof (cost_bound_of_length data Hlen) as Hcost.
  rewrite getL1Fee_spec, getL1GasUsed_spec by assumption. cbn [overhead l1BaseFee scalar].
  unfold CalculateL1Fee.
  rewrite CalculateL1GasUsed_no_wrap by lia.
  rewrite !Z.mul_0_r, Z.mul_0_l.
  destruct (Z.ltb_spec (4 * zeroCount data + 16 * nonZeroCount data + 2750)
              (2 ^ 256)); [|lia].
  split; reflexivity.
Qed.

End ContractCalls.

Lemma setters_only_owner_witness :
  OracleCalls.run trace_of_others oracle_deployed = (oracle_deployed, []).
Proof.
  apply setters_only_owner.
  repeat (constructor; [intros H; discriminate H|]). constructor.
Defined.

Lemma setters_notify_witness :
  l1BaseFee (OracleCalls.vars (fst (OracleCalls.run trace_mixed oracle_deployed))) =
    45000000000 /\
  wf (OracleCalls.vars (fst (OracleCalls.run trace_mixed oracle_deployed))).
Proof.
  pose proof (setters_notify trace_mixed oracle_deployed)
    as (_ & _ & Hbase & _ & _ & Hwf).
  split; [exact Hbase|].
  apply Hwf.
  - repeat split; vm_compute; congruence.
  - repeat (constructor; [split; vm_compute; congruence|]). constructor.
Defined.

Lemma setters_commute_witness :
  fst (OracleCalls.run [(account_owner, OracleCalls.SetScalar 2);
                        (account_owner, OracleCalls.SetOverhead 2100)]
         oracle_deployed) =
  fst (OracleCalls.run [(account_owner, OracleCalls.SetOverhead 2100);
                        (account_owner, OracleCalls.SetScalar 2)]
         oracle_deployed) /\
  fst (OracleCalls.run [(account_owner, OracleCalls.SetScalar 2);
                        (account_owner, OracleCalls.SetScalar 3)]
         oracle_deployed) =
  fst (OracleCalls.run [(account_owner, OracleCalls.SetScalar 3)]
         oracle_deployed).
Proof.
  split.
  - exact (proj1 (setters_commute oracle_deployed account_owner account_owner
                    (OracleCalls.SetScalar 2) (OracleCalls.SetOverhead 2100))
             eq_refl).
  - exact (proj2 (setters_commute oracle_deployed account_owner account_owner
                    (OracleCalls.SetScalar 2) (OracleCalls.SetScalar 3))
             eq_refl eq_refl eq_refl).
Defined.

Lemma constructor_initial_witness :
  exists s,
    OracleCalls.constructor account_owner = Some s /\
    OracleCalls.owner s = account_owner /\
    getL1Fee (OracleCalls.vars s) [x00; x01] = Some 0.
Proof.
  destruct (proj2 (constructor_initial account_owner)) as (s & Hs & Ho & _ & Hv).
  - intros H. discriminate H.
  - exists s. split; [exact Hs|]. split; [exact Ho|].
    apply (Hv [x00; x01]). reflexivity.
Defined.

(** ** Across the two paths and across the two programs *)

(** X13: Both paths on one transaction: when the full-transaction path is given
    the very transaction the message path rebuilds, the message fee exceeds
    the transaction fee by the cost of the filler,
    [136 * 16 * l1GasPrice * scalar], and by [gasPrice * (gasUsed - gasLimit)]. *)
Theorem fee_paths_same_transaction
    (EncodeRLP : Transaction -> result (list byte))
    (L2GasPriceOracleAddress : Address)
    (L1GasPriceSlot OverheadSlot ScalarSlot : Hash)
    (msg : Message) (gpo : RollupOracle) (state : StateDb)
    (gasUsed l1GasPrice overhead scalar : Z) (raw : list byte) :
  SuggestL1GasPrice gpo = Ok l1GasPrice ->
  SuggestOverhead gpo = Ok overhead ->
  SuggestScalar gpo = Ok scalar ->
  ReadGPOStorageSlots L2GasPriceOracleAddress L1GasPriceSlot OverheadSlot
    ScalarSlot state = (l1GasPrice, overhead, scalar) ->
  EncodeRLP (asTransaction msg) = Ok raw ->
  Z.of_nat (length raw) + 136 < 2 ^ 60 ->
  0 <= Gas msg < 2 ^ 64 ->
  exists fee msgFee,
    CalculateFee EncodeRLP (asTransaction msg) gpo = Ok fee /\
    CalculateMsgFee EncodeRLP L2GasPriceOracleAddress L1GasPriceSlot
      OverheadSlot ScalarSlot msg state gasUsed = Ok msgFee /\
    msgFee - fee =
      136 * 16 * l1GasPrice * scalar + GasPrice msg * (gasUsed - Gas msg).
Proof.
  intros Hp Ho Hs Hread Henc Hlen Hgas.
  assert (types.Price (asTransaction msg) = GasPrice msg /\
          types.GasLimit (asTransaction msg) = Gas msg) as [HPrice HGas]
    by (unfold asTransaction; destruct (To msg); split; reflexivity).
  eexists. eexists. split; [|split].
  - rewrite (CalculateFee_ok EncodeRLP _ gpo l1GasPrice overhead scalar raw)
      by assumption.
    reflexivity.
  - unfold CalculateMsgFee.
    rewrite (CalculateL1MsgFee_ok EncodeRLP L2GasPriceOracleAddress
               L1GasPriceSlot OverheadSlot ScalarSlot msg state
               l1GasPrice overhead scalar raw) by assumption.
    reflexivity.
  - rewrite HPrice, HGas, wrap64_small by assumption.
    unfold CalculateL1Fee. rewrite CalculateL1GasUsed_app_filler by exact Hlen.
    ring.
Qed.

Lemma fee_paths_same_transaction_witness :
  exists fee msgFee,
    CalculateFee RLP.EncodeRLP (asTransaction msg_transfer) gpo_default =
      Ok fee /\
    CalculateMsgFee RLP.EncodeRLP predeploy_address slot_l1GasPrice
      slot_overhead slot_scalar msg_transfer state_default 20000 = Ok msgFee /\
    msgFee - fee =
      136 * 16 * 30000000000 * 1 + 20000000000 * (20000 - 21000).
Proof.
  assert (0 <= Gas msg_transfer < 2 ^ 64) as Hgas
    by (split; vm_compute; congruence).
  exact (fee_paths_same_transaction RLP.EncodeRLP predeploy_address
           slot_l1GasPrice slot_overhead slot_scalar msg_transfer gpo_default
           state_default 20000 30000000000 2750 1 _
           eq_refl eq_refl eq_refl eq_refl eq_refl eq_refl Hgas).
Defined.

(** X24: Once the owner has set the base fee, the overhead and the scalar, in
    this or any other order of the three calls, whatever [getL1Fee] returns
    for data shorter than 2^60 bytes is what the Go calculator returns for
    those three values; the L2 gas price is untouched. *)
Theorem setters_then_getL1Fee (s : OracleCalls.state) (b o k : Z)
    (data : list byte) :
  let owner := OracleCalls.owner s in
  let s' :=
    fst (OracleCalls.run [ (owner, OracleCalls.SetL1BaseFee b);
                           (owner, OracleCalls.SetOverhead o);
                           (owner, OracleCalls.SetScalar k) ] s) in
  wf (OracleCalls.vars s) ->
  is_uint256 b -> is_uint256 o -> is_uint256 k ->
  Z.of_nat (length data) < 2 ^ 60 ->
  (forall txs,
     Permutation txs [ (owner, OracleCalls.SetL1BaseFee b);
                       (owner, OracleCalls.SetOverhead o);
                       (owner, OracleCalls.SetScalar k) ] ->
     fst (OracleCalls.run txs s) = s') /\
  gasPrice (OracleCalls.vars s') = gasPrice (OracleCalls.vars s) /\
  (forall v, getL1Fee (OracleCalls.vars s') data = Some v ->
             v = CalculateL1Fee data o b k).
Proof.
  intros owner s' Hwf Hb Ho Hk Hlen.
  assert (s' = {| OracleCalls.owner := OracleCalls.owner s;
                  OracleCalls.vars :=
                    {| gasPrice := gasPrice (OracleCalls.vars s);
                       l1BaseFee := b; overhead := o; scalar := k |} |})
    as Hs'.
  { subst s' owner. unfold OracleCalls.run, OracleCalls.transact.
    cbn [fold_left fst snd OracleCalls.dispatch].
    unfold OracleCalls.setL1BaseFee, OracleCalls.setOverhead,
      OracleCalls.setScalar, OracleCalls.onlyOwner.
    rewrite Z.eqb_refl. cbn [fst snd OracleCalls.owner OracleCalls.vars].
    rewrite Z.eqb_refl. cbn [fst snd OracleCalls.owner OracleCalls.vars].
    rewrite Z.eqb_refl. reflexivity. }
  split; [|split].
  - intros txs Hperm. rewrite Hs'.
    assert (length txs = 3%nat) as Hlen3
      by (now rewrite (Permutation_length Hperm)).
    destruct txs as [|t1 [|t2 [|t3 [|t4 txs]]]]; try discriminate Hlen3.
    assert (forall t, In t [t1; t2; t3] ->
              t = (owner, OracleCalls.SetL1BaseFee b) \/
              t = (owner, OracleCalls.SetOverhead o) \/
              t = (owner, OracleCalls.SetScalar k)) as Hin.
    { intros t Ht. apply (Permutation_in _ Hperm) in Ht. cbn in Ht.
      intuition congruence. }
    assert (forall t, In t [ (owner, OracleCalls.SetL1BaseFee b);
                             (owner, OracleCalls.SetOverhead o);
                             (owner, OracleCalls.SetScalar k) ] ->
              In t [t1; t2; t3]) as Hall
      by (intros t Ht; apply (Permutation_in _ (Permutation_sym Hperm)), Ht).
    pose proof (Hall _ (or_introl eq_refl)) as H1.
    pose proof (Hall _ (or_intror (or_introl eq_refl))) as H2.
    pose proof (Hall _ (or_intror (or_intror (or_introl eq_refl)))) as H3.
    destruct (Hin t1 (or_introl eq_refl)) as [ -> | [ -> | -> ] ];
      destruct (Hin t2 (or_intror (or_introl eq_refl))) as [ -> | [ -> | -> ] ];
      destruct (Hin t3 (or_intror (or_intror (or_introl eq_refl))))
        as [ -> | [ -> | -> ] ];
      cbn in H1, H2, H3;
      try (exfalso; intuition congruence);
      subst owner; unfold OracleCalls.run, OracleCalls.transact;
      cbn [fold_left fst snd OracleCalls.dispatch];
      unfold OracleCalls.setL1BaseFee, OracleCalls.setOverhead,
        OracleCalls.setScalar, OracleCalls.onlyOwner;
      rewrite Z.eqb_refl; cbn [fst snd OracleCalls.owner OracleCalls.vars];
      rewrite Z.eqb_refl; cbn [fst snd OracleCalls.owner OracleCalls.vars];
      rewrite Z.eqb_refl; reflexivity.
  - now rewrite Hs'.
  - intros v Hv. rewrite Hs' in Hv. cbn [OracleCalls.vars] in Hv.
    assert (wf {| gasPrice := gasPrice (OracleCalls.vars s);
                  l1BaseFee := b; overhead := o; scalar := k |}) as Hwf'
      by (destruct Hwf as (Hg & _); repeat split; cbn; tauto || apply Hg ||
          apply Hb || apply Ho || apply Hk).
    rewrite (getL1Fee_spec _ data Hwf' Hlen) in Hv. cbn in Hv.
    destruct (_ && _) in Hv; [|discriminate].
    now injection Hv as <-.
Qed.

Lemma setters_then_getL1Fee_witness :
  getL1Fee
    (OracleCalls.vars
       (fst (OracleCalls.run
               [ (account_owner, OracleCalls.SetL1BaseFee 45000000000);
                 (account_owner, OracleCalls.SetOverhead 2100);
                 (account_owner, OracleCalls.SetScalar 2) ]
               oracle_deployed)))
    [x00; x01] = Some 190800000000000 /\
  190800000000000 = CalculateL1Fee [x00; x01] 2100 45000000000 2.
Proof.
  assert (wf (OracleCalls.vars oracle_deployed)) as Hwf
    by (repeat split; vm_compute; congruence).
  assert (is_uint256 45000000000) as Hb by (split; vm_compute; congruence).
  assert (is_uint256 2100) as Ho by (split; vm_compute; congruence).
  assert (is_uint256 2) as Hk by (split; vm_compute; congruence).
  assert (Z.of_nat (length [x00; x01]) < 2 ^ 60) as Hlen by reflexivity.
  split; [reflexivity|].
  exact (proj2 (proj2 (setters_then_getL1Fee oracle_deployed 45000000000 2100 2
                         [x00; x01] Hwf Hb Ho Hk Hlen))
           190800000000000 eq_refl).
Defined.

(** ** Thresholds of at most one *)

(** [ceil_scaled a e <= n] says that the value [a * 2^e] is at most the
    integer [n]. *)
Lemma ceil_scaled_le_spec (a e n : Z) :
  ceil_scaled a e <= n <->
  if 0 <=? e then a * 2 ^ e <= n else a <= n * 2 ^ (- e).
Proof.
  unfold ceil_scaled. destruct (Z.leb_spec 0 e) as [He|He]; [reflexivity|].
  assert (0 < 2 ^ (- e)) as Hd by (apply Z.pow_pos_nonneg; lia).
  split.
  - intros Hle.
    assert (- n <= - a / 2 ^ (- e)) as Hq by lia.
    pose proof (Z.mul_div_le (- a) (2 ^ (- e)) Hd). nia.
  - intros Hle.
    assert (- n <= - a / 2 ^ (- e)); [|lia].
    apply Z.div_le_lower_bound; [exact Hd|]. nia.
Qed.

Lemma shr_nearest_even_cases (m k : Z) :
  0 < k ->
  (big.shr_nearest_even m k = m / 2 ^ k \/
   big.shr_nearest_even m k = m / 2 ^ k + 1) /\
  (m mod 2 ^ k = 0 -> big.shr_nearest_even m k = m / 2 ^ k).
Proof.
  intros Hk. unfold big.shr_nearest_even.
  rewrite Z.shiftr_div_pow2, Z.land_ones, Z.shiftl_1_l by lia.
  assert (0 < 2 ^ (k - 1)) as Hhalf by (apply Z.pow_pos_nonneg; lia).
  split.
  - destruct (m mod 2 ^ k <? 2 ^ (k - 1)); [now left|].
    destruct (2 ^ (k - 1) <? m mod 2 ^ k); [now right|].
    destruct (Z.even (m / 2 ^ k)); [now left|now right].
  - intros ->. destruct (Z.ltb_spec 0 (2 ^ (k - 1))); [reflexivity|lia].
Qed.

(** Rounding to nearest does not step over a multiple of the quantum. *)
Lemma shr_nearest_even_le_multiple (m k c : Z) :
  0 < k -> m <= c * 2 ^ k -> big.shr_nearest_even m k <= c.
Proof.
  intros Hk Hle.
  assert (0 < 2 ^ k) as Hd by (apply Z.pow_pos_nonneg; lia).
  destruct (shr_nearest_even_cases m k Hk) as [Hcases Hexact].
  pose proof (Z.div_mod m (2 ^ k) ltac:(lia)) as Hdm.
  pose proof (Z.mod_pos_bound m (2 ^ k) Hd) as Hmod.
  assert (m / 2 ^ k <= c) as Hq by (apply Z.div_le_upper_bound; lia).
  destruct (Z.eq_dec (m / 2 ^ k) c) as [Heq|Hne].
  - rewrite Hexact; [lia|]. nia.
  - destruct Hcases as [-> | ->]; lia.
Qed.

Lemma shr_nearest_even_ge_quotient (m k : Z) :
  0 < k -> m / 2 ^ k <= big.shr_nearest_even m k.
Proof.
  intros Hk. destruct (shr_nearest_even_cases m k Hk) as [[-> | ->] _]; lia.
Qed.

Lemma round_pos (p m e : Z) :
  0 < p -> 0 < m -> 0 < fst (big.round p m e).
Proof.
  intros Hp Hm. unfold big.round.
  destruct (Z.leb_spec (Z.log2 m + 1 - p) 0) as [Hk|Hk]; [exact Hm|].
  cbn [fst].
  pose proof (shr_nearest_even_ge_quotient m (Z.log2 m + 1 - p) Hk) as Hq.
  assert (1 <= m / 2 ^ (Z.log2 m + 1 - p)); [|lia].
  apply Z.div_le_lower_bound; [apply Z.pow_pos_nonneg; lia|].
  rewrite Z.mul_1_r.
  transitivity (2 ^ Z.log2 m).
  - apply Z.pow_le_mono_r; lia.
  - apply Z.log2_spec. exact Hm.
Qed.

(** Rounding to [p] bits does not step over an integer below [2^p]. *)
Lemma round_le_integer (p m e n : Z) :
  0 < m -> 0 <= n < 2 ^ p ->
  ceil_scaled m e <= n ->
  ceil_scaled (fst (big.round p m e)) (snd (big.round p m e)) <= n.
Proof.
  intros Hm Hn Hle. unfold big.round.
  destruct (Z.leb_spec (Z.log2 m + 1 - p) 0) as [Hk|Hk]; [exact Hle|].
  cbn [fst snd]. set (k := Z.log2 m + 1 - p) in *.
  assert (0 <= p) as Hp.
  { destruct (Z.lt_ge_cases p 0) as [Hneg|]; [|assumption].
    rewrite (Z.pow_neg_r 2 p Hneg) in Hn. lia. }
  assert (2 ^ p <= m) as Hbig.
  { transitivity (2 ^ Z.log2 m); [apply Z.pow_le_mono_r; lia|].
    apply Z.log2_spec, Hm. }
  apply ceil_scaled_le_spec in Hle.
  destruct (Z.leb_spec 0 e) as [He|He].
  { assert (1 <= 2 ^ e) by (apply (Z.pow_le_mono_r 2 0 e); lia). nia. }
  (* [m <= n * 2^j] with [j = - e]: show [k <= j] *)
  assert (k <= - e) as Hkj.
  { assert (2 ^ (p + k - 1) <= m) as Hlow.
    { replace (p + k - 1) with (Z.log2 m) by (subst k; lia).
      apply Z.log2_spec, Hm. }
    assert (0 < 2 ^ (- e)) by (apply Z.pow_pos_nonneg; lia).
    assert (2 ^ (p + k - 1) < 2 ^ (p + - e)) as Hpow.
    { rewrite (Z.pow_add_r 2 p (- e)) by lia. nia. }
    apply Z.pow_lt_mono_r_iff in Hpow; lia. }
  assert (big.shr_nearest_even m k <= n * 2 ^ (- e - k)) as Hr.
  { apply shr_nearest_even_le_multiple; [exact Hk|].
    rewrite <- Z.mul_assoc, <- Z.pow_add_r by lia.
    now replace (- e - k + k) with (- e) by lia. }
  apply ceil_scaled_le_spec.
  destruct (Z.leb_spec 0 (e + k)) as [Hek|Hek].
  - replace (e + k) with 0 by lia. replace (- e - k) with 0 in Hr by lia.
    cbn in *. lia.
  - now replace (- (e + k)) with (- e - k) by lia.
Qed.

Lemma ceil_scaled_log2 (m e n : Z) :
  0 < m -> ceil_scaled m e <= n -> n < 2 ^ 53 -> Z.log2 m + e < 53.
Proof.
  intros Hm Hle Hn. apply ceil_scaled_le_spec in Hle.
  pose proof (Z.log2_spec m Hm) as [Hlow _].
  pose proof (Z.log2_nonneg m) as Hlog.
  destruct (Z.leb_spec 0 e) as [He|He].
  - assert (2 ^ (Z.log2 m + e) < 2 ^ 53) as Hpow.
    { rewrite Z.pow_add_r by lia.
      assert (0 < 2 ^ e) by (apply Z.pow_pos_nonneg; lia). nia. }
    apply Z.pow_lt_mono_r_iff in Hpow; lia.
  - assert (2 ^ Z.log2 m < 2 ^ (53 + - e)) as Hpow.
    { rewrite (Z.pow_add_r 2 53 (- e)) by lia.
      assert (0 < 2 ^ (- e)) by (apply Z.pow_pos_nonneg; lia). nia. }
    apply Z.pow_lt_mono_r_iff in Hpow; lia.
Qed.

Section UnitThreshold.

Variable oor : float64 -> Z.

Lemma uint64_of_Ceil_le (m e n : Z) :
  0 < m -> ceil_scaled m e <= n -> n < 2 ^ 53 ->
  0 <= uint64_of_float64 oor
         (math.Ceil (if big.emax <? Z.log2 m + e then big.inf false
                     else big.of_mant false m e)) <= n.
Proof.
  intros Hm Hle Hn.
  pose proof (ceil_scaled_log2 m e n Hm Hle Hn) as Hlog.
  unfold big.emax, big.bias.
  destruct (Z.ltb_spec 1023 (Z.log2 m + e)) as [Hover|_]; [lia|].
  destruct m as [|p|p]; [lia| |lia]. cbn [big.of_mant].
  rewrite Ceil_finite.
  pose proof (ceil_scaled_pos (Zpos p) e eq_refl) as Hpos.
  destruct (ceil_scaled (Zpos p) e) as [|c|c]; [lia| |lia].
  rewrite uint64_of_integer by lia. lia.
Qed.

(** The conversion to [float64] and the ceiling do not step over an integer
    that a [float64] holds exactly. *)
Lemma uint64_of_Ceil_Float64_le (m : positive) (e n : Z) :
  0 < n < 2 ^ 53 -> ceil_scaled (Zpos m) e <= n ->
  0 <= uint64_of_float64 oor
         (math.Ceil (big.Float64 (big.finite false m e))) <= n.
Proof.
  intros Hn Hle. unfold big.Float64.
  pose proof (Z.log2_nonneg (Zpos m)) as Hlog.
  unfold big.emin, big.mbits, big.bias.
  destruct (Z.ltb_spec (Z.log2 (Zpos m) + e) (1 - 1023)) as [Hden|Hnorm].
  - (* below the normal range: at most one quantum above zero *)
    set (p := 52 + 1 - (1 - 1023) + (Z.log2 (Zpos m) + e)).
    destruct (Z.ltb_spec p 0) as [Hneg|Hnn];
      [cbn [orb math.Ceil uint64_of_float64]; lia|].
    destruct (Z.eqb_spec p 0) as [Hz|Hnz].
    + cbn [orb andb].
      destruct (big.is_pow2 m); [cbn [math.Ceil uint64_of_float64]; lia|].
      rewrite Ceil_finite.
      replace (ceil_scaled 1 big.dmin) with 1 by (vm_compute; reflexivity).
      rewrite uint64_of_integer by (vm_compute; reflexivity). lia.
    + cbn [orb andb].
      assert (ceil_scaled (Zpos m) e <= 1) as Hone.
      { apply ceil_scaled_le_spec.
        destruct (Z.leb_spec 0 e) as [He|He]; [lia|].
        rewrite Z.mul_1_l.
        pose proof (Z.log2_spec (Zpos m) eq_refl) as [_ Hup].
        assert (2 ^ Z.succ (Z.log2 (Zpos m)) <= 2 ^ (- e))
          by (apply Z.pow_le_mono_r; lia).
        lia. }
      assert (0 <= 1 < 2 ^ p) as Hp.
      { split; [lia|]. apply (Z.pow_lt_mono_r 2 0 p); lia. }
      pose proof (round_pos p (Zpos m) e ltac:(lia) eq_refl) as Hpos.
      pose proof (round_le_integer p (Zpos m) e 1 eq_refl Hp Hone) as Hr.
      destruct (big.round p (Zpos m) e) as [m' e']. cbn [fst snd] in Hpos, Hr.
      destruct (uint64_of_Ceil_le m' e' 1 Hpos Hr eq_refl) as [Hge Hle1].
      split; [exact Hge|]. etransitivity; [exact Hle1|]. lia.
  - destruct (Z.ltb_spec (52 + 1) 0) as [Hneg|_]; [lia|].
    change (52 + 1 =? 0) with false. cbn [orb andb].
    assert (0 <= n < 2 ^ (52 + 1)) as Hp by (change (52 + 1) with 53; lia).
    pose proof (round_pos (52 + 1) (Zpos m) e eq_refl eq_refl) as Hpos.
    pose proof (round_le_integer (52 + 1) (Zpos m) e n eq_refl Hp Hle) as Hr.
    destruct (big.round (52 + 1) (Zpos m) e) as [m' e']. cbn [fst snd] in Hpos, Hr.
    apply uint64_of_Ceil_le; [exact Hpos|exact Hr|lia].
Qed.

(** With a threshold between 0 and 1, the product of an operand below 2^53
    is returned and is at most the operand. *)
Lemma mulByFloat_le_operand (num : Z) (t : big.Float) :
  0 <= num < 2 ^ 53 -> in_unit_interval t = true ->
  exists r, mulByFloat oor num t = Returns r /\ 0 <= r <= num.
Proof.
  intros [Hlo Hhi] Hunit.
  unfold mulByFloat, big.Uint64.
  rewrite Z.abs_eq by exact Hlo. rewrite wrap64_small by lia.
  destruct num as [|n|n]; [| |lia].
  - exists 0. split; [|lia].
    destruct t as [neg|neg m ex|neg]; [reflexivity|reflexivity|discriminate].
  - destruct t as [neg|[] m ex|neg]; try discriminate.
    + exists 0. split; [reflexivity|lia].
    + cbn [in_unit_interval] in Hunit.
      apply andb_prop in Hunit as [Hex Hm].
      apply Z.leb_le in Hex. apply Z.leb_le in Hm.
      cbn [big.SetUint64 big.of_mant big.Mul xorb]. rewrite Z.add_0_l.
      assert (ceil_scaled (Zpos (n * m)) ex <= Zpos n) as Hle.
      { apply ceil_scaled_le_spec.
        destruct (Z.leb_spec 0 ex) as [He|He].
        - replace ex with 0 in * by lia. cbn in Hm. rewrite Z.pow_0_r. nia.
        - change (Zpos (n * m)) with (Zpos n * Zpos m). nia. }
      assert (0 <= Zpos n < 2 ^ 64) as Hn by lia.
      pose proof (round_pos 64 (Zpos (n * m)) ex eq_refl eq_refl) as Hpos.
      pose proof (round_le_integer 64 (Zpos (n * m)) ex (Zpos n) eq_refl Hn Hle)
        as Hr.
      destruct (big.round 64 (Zpos (n * m)) ex) as [m' e'].
      cbn [fst snd] in Hpos, Hr.
      destruct m' as [|p|p]; [lia| |lia]. cbn [big.of_mant].
      eexists. split; [reflexivity|].
      apply uint64_of_Ceil_Float64_le; [lia|exact Hr].
Qed.

(** X25: with a threshold between 0 and 1 and an operand below 2^53,
    [mulByFloat] returns, and its result is at most the operand: neither of
    the two roundings nor the ceiling steps over the operand, which a
    [float64] holds exactly.  Above 2^53 this fails: 2^53 + 3 times 1 gives
    2^53 + 4. *)
Theorem mulByFloat_at_most_operand (num : Z) (t : big.Float) :
  0 <= num < 2 ^ 53 -> in_unit_interval t = true ->
  (exists r, mulByFloat oor num t = Returns r /\ 0 <= r <= num) /\
  mulByFloat oor (2 ^ 53 + 3) threshold_1 = Returns (2 ^ 53 + 4).
Proof.
  intros Hnum Hunit. split; [|reflexivity].
  now apply mulByFloat_le_operand.
Qed.

(** X26: with a downward threshold between 0 and 1 and an expected fee
    below 2^53, a user fee that is not below the expected fee is never
    rejected as too low, whatever the upward threshold; without an upward
    threshold it is accepted.  Above 2^53 the rounding can raise the floor
    over the expected fee: a user paying the expected fee 2^53 + 3 with a
    downward threshold of 1 is rejected. *)
Theorem PaysEnough_discounted_floor (u e : Z) (down : big.Float)
    (up : option big.Float) :
  0 <= e < 2 ^ 53 -> in_unit_interval down = true -> e <= u ->
  PaysEnough oor (request (Some u) (Some e) (Some down) up) <>
    Returns (Some ErrFeeTooLow) /\
  PaysEnough oor (request (Some u) (Some e) (Some down) None) = Returns None /\
  PaysEnough oor
    (request (Some (2 ^ 53 + 3)) (Some (2 ^ 53 + 3)) (Some threshold_1) None) =
    Returns (Some ErrFeeTooLow).
Proof.
  intros He Hunit Hu.
  destruct (mulByFloat_le_operand e down He Hunit) as (floor & Hmul & Hfloor).
  split; [|split; [|reflexivity]].
  - rewrite (PaysEnough_unfold oor (request (Some u) (Some e) (Some down) up)
               u e eq_refl eq_refl).
    cbn [ThresholdDown ThresholdUp request fee_floor]. rewrite Hmul.
    destruct (Z.ltb_spec u floor) as [Hlt|_]; [lia|].
    destruct up as [t|]; [|discriminate].
    destruct (mulByFloat oor e t) as [cap|msg]; [|discriminate].
    destruct (cap <? u - e); discriminate.
  - rewrite (PaysEnough_unfold oor (request (Some u) (Some e) (Some down) None)
               u e eq_refl eq_refl).
    cbn [ThresholdDown ThresholdUp request fee_floor]. rewrite Hmul.
    destruct (Z.ltb_spec u floor) as [Hlt|_]; [lia|reflexivity].
Qed.

End UnitThreshold.

Lemma mulByFloat_at_most_operand_witness :
  (0 <= 1000 < 2 ^ 53) /\ in_unit_interval threshold_0_8 = true /\
  exists r, mulByFloat out_of_range_zero 1000 threshold_0_8 = Returns r /\
            0 <= r <= 1000.
Proof.
  assert (0 <= 1000 < 2 ^ 53) as Hnum by (split; vm_compute; congruence).
  split; [exact Hnum|]. split; [reflexivity|].
  exact (proj1 (mulByFloat_at_most_operand out_of_range_zero 1000
                  threshold_0_8 Hnum eq_refl)).
Defined.

Lemma PaysEnough_discounted_floor_witness :
  (0 <= 1000 < 2 ^ 53) /\ in_unit_interval threshold_0_8 = true /\
  1000 <= 1000 /\
  PaysEnough out_of_range_zero
    (request (Some 1000) (Some 1000) (Some threshold_0_8) None) = Returns None.
Proof.
  assert (0 <= 1000 < 2 ^ 53) as He by (split; vm_compute; congruence).
  assert (1000 <= 1000) as Hu by (vm_compute; congruence).
  split; [exact He|]. split; [reflexivity|]. split; [exact Hu|].
  exact (proj1 (proj2 (PaysEnough_discounted_floor out_of_range_zero 1000 1000
                         threshold_0_8 None He eq_refl Hu))).
Defined.
